(** * PCK mesh extraction: scanner, index remapper and OBJ exporter

    A shallow embedding of [PCKParser.find_vertex_patterns], [PCKParser.parse]
    and of the text assembly of [MainWindow.export_to_obj] (src/translated.py),
    followed by the properties the specification states about them.

    Conventions.
    - The input buffer is a [list byte]; byte positions, counts and indices are
      in [Z], because the source computes with Python integers and one of the
      counts, [(XX - 2) * 3], is negative for [XX < 2].
    - The [while] loop is a function with fuel; [find_vertex_patterns_total]
      shows that the fuel it is given always suffices.
    - Left out of the records: the decorative random ['color'], the hex dumps
      (['hex_vertices'], ['hex_uvs'], ['hex_faces']) and the [print] calls;
      none of them is read again by the scanner, the remapper or the exporter. *)

From Stdlib Require Import ZArith List Lia String Bool.
From Stdlib.Strings Require Import Byte.
From Stdlib Require Import DecimalString.
Import ListNotations.
Local Open Scope Z_scope.

(** ** Python byte strings *)

Module Py.

Definition bytes := list byte.

Definition int_of_byte (b : byte) : Z := Z.of_N (Byte.to_N b).

Definition len {A} (l : list A) : Z := Z.of_nat (List.length l).

(** [d[a:b]] for non-negative [a] and [b] (the only way the source slices). *)
Definition slice (d : bytes) (a b : Z) : bytes :=
  firstn (Z.to_nat (b - a)) (skipn (Z.to_nat a) d).

(** [d[i]]: a negative index counts from the end; [None] is [IndexError]. *)
Definition getitem (d : bytes) (i : Z) : option byte :=
  let j := if i <? 0 then i + len d else i in
  if j <? 0 then None else nth_error d (Z.to_nat j).

Fixpoint bytes_eqb (a b : bytes) : bool :=
  match a, b with
  | [], [] => true
  | x :: a', y :: b' => Byte.eqb x y && bytes_eqb a' b'
  | _, _ => false
  end.

Fixpoint startswith (d pat : bytes) {struct pat} : bool :=
  match pat, d with
  | [], _ => true
  | p :: pat', x :: d' => Byte.eqb p x && startswith d' pat'
  | _ :: _, [] => false
  end.

(** [find_in pat d pos]: [d] is the part of the buffer from position [pos]. *)
Fixpoint find_in (pat d : bytes) (pos : Z) : Z :=
  if startswith d pat then pos
  else match d with
       | [] => -1
       | _ :: d' => find_in pat d' (pos + 1)
       end.

(** [d.find(pat, start)] for [0 <= start]: lowest match position, or [-1]. *)
Definition find (d pat : bytes) (start : Z) : Z :=
  if len d <? start then -1
  else find_in pat (skipn (Z.to_nat start) d) start.

(** [range(0, stop, step)] for a positive [step]. *)
Definition range (stop step : Z) : list Z :=
  map (fun k => Z.of_nat k * step) (seq 0 (Z.to_nat ((stop + step - 1) / step))).

(** A little-endian signed 16-bit integer, format ['h']. *)
Definition int16_le (lo hi : byte) : Z :=
  let u := int_of_byte lo + 256 * int_of_byte hi in
  if u <? 32768 then u else u - 65536.

(** [struct.unpack_from(fmt, d, off)] for [0 <= off]; [None] is [struct.error]
    (not enough bytes from [off]). *)
Definition unpack_hhh (d : bytes) (off : Z) : option (Z * Z * Z) :=
  if off <? 0 then None else
  match skipn (Z.to_nat off) d with
  | x0 :: x1 :: y0 :: y1 :: z0 :: z1 :: _ =>
      Some (int16_le x0 x1, int16_le y0 y1, int16_le z0 z1)
  | _ => None
  end.

Definition unpack_hh (d : bytes) (off : Z) : option (Z * Z) :=
  if off <? 0 then None else
  match skipn (Z.to_nat off) d with
  | u0 :: u1 :: v0 :: v1 :: _ => Some (int16_le u0 u1, int16_le v0 v1)
  | _ => None
  end.

Definition unpack_BBB (d : bytes) (off : Z) : option (Z * Z * Z) :=
  if off <? 0 then None else
  match skipn (Z.to_nat off) d with
  | a :: b :: c :: _ => Some (int_of_byte a, int_of_byte b, int_of_byte c)
  | _ => None
  end.

End Py.

Import Py.

(** ** The pattern table *)

Record pattern_info := {
  pattern_name : string;
  prefix : bytes;
  faces_prefix : bytes;
  uv_prefix : bytes
}.

Definition pattern1 : pattern_info :=
  {| pattern_name := "pattern1";
     prefix := [xee; x00];
     faces_prefix := [x9a; x00];
     uv_prefix := [xc4; x00] |}.

Definition pattern2 : pattern_info :=
  {| pattern_name := "pattern2";
     prefix := [x1b; x02];
     faces_prefix := [xc7; x01];
     uv_prefix := [xf1; x01] |}.

(** [patterns.items()], in insertion order. *)
Definition patterns : list pattern_info := [pattern1; pattern2].

(** ** Groups *)

Definition vertex := (Z * Z * Z)%type.
Definition uv := (Z * Z)%type.

(** [{'indices': (v1, v2, v3), 'byte': value}] *)
Record face := {
  indices : Z * Z * Z;
  face_byte : Z
}.

(** The group dictionary as [find_vertex_patterns] leaves it.  [uvs_span] holds
    ['uvs_offset'] and ['uvs_end'], keys that exist only when a UV block was
    read. *)
Record group := {
  pattern : string;
  start : Z;
  XX : Z;
  vertices : list vertex;
  active_faces : list face;
  inactive_faces : list face;
  uvs : list uv;
  vertices_offset : Z;
  vertices_end : Z;
  uvs_span : option (Z * Z);
  faces_offset : Z;
  faces_end : Z
}.

Definition msg_vertices : string := "Corrupted or incomplete PCK file (vertices).".
Definition msg_uvs : string := "Corrupted or incomplete PCK file (UVs).".
Definition msg_faces : string := "Corrupted or incomplete PCK file (faces).".
Definition msg_no_faces : string := "Face pattern not found.".

(** The three messages of the [struct.error] handlers, without the text of
    the exception that follows them. *)
Definition msg_parse_vertices : string := "Error parsing vertices".
Definition msg_parse_uvs : string := "Error parsing UVs".
Definition msg_parse_faces : string := "Error parsing faces".

(** ** Record decoding *)

(** [for j in range(0, vertex_bytes_count, 6)]: [None] when [unpack_from]
    raises [struct.error]. *)
Fixpoint read_vertices (d : bytes) (vertices_start : Z) (js : list Z)
  : option (list vertex) :=
  match js with
  | [] => Some []
  | j :: js' =>
      match unpack_hhh d (vertices_start + j) with
      | None => None
      | Some v =>
          match read_vertices d vertices_start js' with
          | None => None
          | Some vs => Some (v :: vs)
          end
      end
  end.

Fixpoint read_uvs (d : bytes) (uv_start : Z) (js : list Z) : option (list uv) :=
  match js with
  | [] => Some []
  | j :: js' =>
      match unpack_hh d (uv_start + j) with
      | None => None
      | Some p =>
          match read_uvs d uv_start js' with
          | None => None
          | Some ps => Some (p :: ps)
          end
      end
  end.

(** [for j in range(0, faces_bytes_count, 3)], threading the two face lists
    of the group. *)
Fixpoint read_faces (d : bytes) (faces_start xx : Z) (js : list Z)
  (act inact : list face) : option (list face * list face) :=
  match js with
  | [] => Some (act, inact)
  | j :: js' =>
      match unpack_BBB d (faces_start + j) with
      | None => None
      | Some (value, _, _) =>
          let face_idx := j / 3 + 1 in
          let v1 := face_idx in
          let v2 := face_idx + 1 in
          let v3 := face_idx + 2 in
          if xx <? v3 then read_faces d faces_start xx js' act inact
          else
            let f := {| indices := (v1, v2, v3); face_byte := value |} in
            if value mod 2 =? 0
            then read_faces d faces_start xx js' (act ++ [f]) inact
            else read_faces d faces_start xx js' act (inact ++ [f])
      end
  end.

(** ** The scanner: [PCKParser.find_vertex_patterns] *)

(** [pattern_info['uv_prefix'] + bytes([XX]) + bytes.fromhex('65')] *)
Definition expected_uv_header (p : pattern_info) (xxb : byte) : bytes :=
  uv_prefix p ++ [xxb] ++ [x65].

(** [pattern_info['faces_prefix'] + bytes([XX]) + bytes.fromhex('6A')] *)
Definition face_signature (p : pattern_info) (xxb : byte) : bytes :=
  faces_prefix p ++ [xxb] ++ [x6a].

(** What one pass of the body of [for ... in patterns.items()] does. *)
Inductive outcome :=
| Continue                       (* fall through or [continue]: next pattern *)
| Found (g : group) (next : Z)   (* group appended, [i = next], [break] *)
| Fail (msg : string)            (* [self.error_message = msg; return False] *)
| Raise.                         (* an uncaught [IndexError] *)

(** The optional UV block, lines 112-138: the UV list, its span when a block
    was read, and [pos_after_uv]. *)
Definition read_uv_block (d : bytes) (p : pattern_info) (xxb : byte)
  (pos_after_vertices : Z) : string + (list uv * option (Z * Z) * Z) :=
  let xx := int_of_byte xxb in
  if pos_after_vertices + 4 <=? len d then
    if bytes_eqb (slice d pos_after_vertices (pos_after_vertices + 4))
                 (expected_uv_header p xxb)
    then
      let uv_start := pos_after_vertices + 4 in
      let uv_bytes_count := xx * 4 in
      if len d <? uv_start + uv_bytes_count then inl msg_uvs
      else
        match read_uvs d uv_start (range uv_bytes_count 4) with
        | None => inl msg_parse_uvs
        | Some us => inr (us, Some (uv_start, uv_start + uv_bytes_count),
                          uv_start + uv_bytes_count)
        end
    else inr ([], None, pos_after_vertices)
  else inr ([], None, pos_after_vertices).

(** The face section, lines 140-175, for a group whose vertices and UVs are
    read. *)
Definition read_face_block (d : bytes) (p : pattern_info) (i : Z) (xxb : byte)
  (vs : list vertex) (us : list uv) (span : option (Z * Z))
  (pos_after_uv : Z) : outcome :=
  let xx := int_of_byte xxb in
  let sig := face_signature p xxb in
  let pos_faces := find d sig pos_after_uv in
  if pos_faces =? -1 then Fail msg_no_faces
  else
    let faces_start := pos_faces + len sig + 6 in
    let faces_bytes_count := (xx - 2) * 3 in
    if len d <? faces_start + faces_bytes_count then Fail msg_faces
    else
      match read_faces d faces_start xx (range faces_bytes_count 3) [] [] with
      | None => Fail msg_parse_faces
      | Some (act, inact) =>
          Found {| pattern := pattern_name p;
                   start := i;
                   XX := xx;
                   vertices := vs;
                   active_faces := act;
                   inactive_faces := inact;
                   uvs := us;
                   vertices_offset := i + 4;
                   vertices_end := i + 4 + xx * 6;
                   uvs_span := span;
                   faces_offset := pos_faces;
                   faces_end := pos_faces + len sig + faces_bytes_count |}
                (faces_start + faces_bytes_count)
      end.

(** The header test of lines 75-81: [Some (Some xxb)] when the header is a
    candidate match with count byte [xxb], [Some None] when it is not, [None]
    when indexing raises. *)
Definition vertex_header (d : bytes) (i : Z) (p : pattern_info)
  : option (option byte) :=
  if bytes_eqb (slice d i (i + 2)) (prefix p) then
    match getitem d (i + 2) with
    | None => None
    | Some xxb =>
        let xx := int_of_byte xxb in
        if negb ((0x00 <=? xx) && (xx <=? 0x2A)) then Some None
        else
          match getitem d (i + 3) with
          | None => None
          | Some t => if negb (int_of_byte t =? 0x69) then Some None
                      else Some (Some xxb)
          end
    end
  else Some None.

(** One pattern tried at position [i], lines 74-175. *)
Definition try_pattern (d : bytes) (i : Z) (p : pattern_info) : outcome :=
  match vertex_header d i p with
  | None => Raise
  | Some None => Continue
  | Some (Some xxb) =>
      let xx := int_of_byte xxb in
      let vertices_start := i + 4 in
      let vertex_bytes_count := xx * 6 in
      if len d <? vertices_start + vertex_bytes_count then Fail msg_vertices
      else
        match read_vertices d vertices_start (range vertex_bytes_count 6) with
        | None => Fail msg_parse_vertices
        | Some vs =>
            let pos_after_vertices := vertices_start + vertex_bytes_count in
            match read_uv_block d p xxb pos_after_vertices with
            | inl msg => Fail msg
            | inr (us, span, pos_after_uv) =>
                read_face_block d p i xxb vs us span pos_after_uv
            end
        end
  end.

(** The [for] loop over the pattern table; [Continue] at the end means that
    [found_pattern] is still [False]. *)
Fixpoint for_patterns (d : bytes) (i : Z) (ps : list pattern_info) : outcome :=
  match ps with
  | [] => Continue
  | p :: ps' =>
      match try_pattern d i p with
      | Continue => for_patterns d i ps'
      | r => r
      end
  end.

Definition loop_body (d : bytes) (i : Z) : outcome := for_patterns d i patterns.

(** How a call ends. *)
Inductive completion (A : Type) :=
| Returned (r : bool) (a : A)
| Raised
| OutOfFuel.
Arguments Returned {A} r a.
Arguments Raised {A}.
Arguments OutOfFuel {A}.

(** The [while i < len(self.data) - 4] loop on the cursor [i] and on
    [self.vertex_groups]; a [False] return carries the message and the groups
    appended so far. *)
Fixpoint scan_loop (d : bytes) (fuel : nat) (i : Z) (gs : list group)
  : completion (list group * string) :=
  match fuel with
  | O => OutOfFuel
  | S fuel' =>
      if i <? len d - 4 then
        match loop_body d i with
        | Continue => scan_loop d fuel' (i + 1) gs
        | Found g next => scan_loop d fuel' next (gs ++ [g])
        | Fail msg => Returned false (gs, msg)
        | Raise => Raised
        end
      else Returned true (gs, EmptyString)
  end.

(** The parser object: the attributes the core reads and writes. *)
Record PCKParser := {
  data : bytes;
  vertex_groups : list group;
  parse_success : bool;
  error_message : string
}.

(** [PCKParser.__init__] followed by a successful [read_pck_file]. *)
Definition loaded (d : bytes) : PCKParser :=
  {| data := d; vertex_groups := []; parse_success := false;
     error_message := EmptyString |}.

Definition find_vertex_patterns (self : PCKParser) : completion PCKParser :=
  match scan_loop (data self) (S (List.length (data self))) 0 (vertex_groups self) with
  | Returned true (gs, _) =>
      Returned true {| data := data self; vertex_groups := gs;
                       parse_success := true;
                       error_message := error_message self |}
  | Returned false (gs, msg) =>
      Returned false {| data := data self; vertex_groups := gs;
                        parse_success := parse_success self;
                        error_message := msg |}
  | Raised => Raised
  | OutOfFuel => OutOfFuel
  end.

(** ** The index remapper: [PCKParser.parse] *)

Definition triangle := (Z * Z * Z)%type.

(** A group after [parse] has added ['base_index'], ['mesh_active_faces'] and
    ['mesh_inactive_faces'] to its dictionary. *)
Record mesh_group := {
  grp : group;
  base_index : Z;
  mesh_active_faces : list triangle;
  mesh_inactive_faces : list triangle
}.

(** [tuple(idx - 1 + base_index for idx in face['indices'])] *)
Definition adjusted_indices (base : Z) (f : face) : triangle :=
  let '(a, b, c) := indices f in (a - 1 + base, b - 1 + base, c - 1 + base).

(** [all(0 <= idx < len(self.vertices) for idx in adjusted_indices)] *)
Definition all_in_range (n : Z) (t : triangle) : bool :=
  let '(a, b, c) := t in
  ((0 <=? a) && (a <? n)) && ((0 <=? b) && (b <? n)) && ((0 <=? c) && (c <? n)).

(** [for face in group[...]]: a face is always a dictionary holding
    ['indices'] here (that is its type), so the [else] branch that returns
    [False] has no counterpart. *)
Fixpoint remap_faces (base n : Z) (fs : list face) (acc : list triangle)
  : list triangle :=
  match fs with
  | [] => acc
  | f :: fs' =>
      let t := adjusted_indices base f in
      if all_in_range n t then remap_faces base n fs' (acc ++ [t])
      else remap_faces base n fs' acc
  end.

(** [for group in self.vertex_groups], threading [self.vertices]. *)
Fixpoint remap_groups (gs : list group) (verts : list vertex)
  : list mesh_group * list vertex :=
  match gs with
  | [] => ([], verts)
  | g :: gs' =>
      let base := len verts in
      let verts' := verts ++ vertices g in
      let mg := {| grp := g;
                   base_index := base;
                   mesh_active_faces :=
                     remap_faces base (len verts') (active_faces g) [];
                   mesh_inactive_faces :=
                     remap_faces base (len verts') (inactive_faces g) [] |} in
      let '(mgs, final) := remap_groups gs' verts' in
      (mg :: mgs, final)
  end.

(** The assembled result: [self.vertices] and the groups with their global
    triangle lists. *)
Record MeshModel := {
  model_vertices : list vertex;
  model_groups : list mesh_group
}.

(** [read_pck_file]: the file system answers with the file's bytes or with
    the text of the exception. *)
Definition read_pck_file (file : string + bytes) : bool * PCKParser :=
  match file with
  | inr d => (true, loaded d)
  | inl e => (false, {| data := []; vertex_groups := []; parse_success := false;
                        error_message := String.append "Error reading the file: " e |})
  end.

(** [parse]: the model is there exactly when [True] is returned. *)
Definition parse (file : string + bytes)
  : completion (PCKParser * option MeshModel) :=
  match read_pck_file file with
  | (false, self) => Returned false (self, None)
  | (true, self) =>
      match find_vertex_patterns self with
      | Returned false self' => Returned false (self', None)
      | Returned true self' =>
          let '(mgs, verts) := remap_groups (vertex_groups self') [] in
          Returned true (self', Some {| model_vertices := verts;
                                        model_groups := mgs |})
      | Raised => Raised
      | OutOfFuel => OutOfFuel
      end
  end.

(** ** The exporter: the text assembled by [MainWindow.export_to_obj] *)

Section Exporter.

(** How an [np.float32] prints: floating point is outside this development,
    so the rendering of a raw coordinate ([true]: divided by 256.0 first) is a
    parameter. *)
Variable str_float32 : bool -> Z -> string.

Definition str_int (n : Z) : string :=
  DecimalString.NilZero.string_of_int (Z.to_int n).

Local Open Scope string_scope.

(** The UVs one group adds to [global_uvs]. *)
Definition group_uvs (g : group) : list uv :=
  if Nat.eqb (List.length (uvs g)) (List.length (vertices g)) then uvs g
  else repeat (0, 0)%Z (List.length (vertices g)).

(** [global_uvs] after the loop over the groups. *)
Fixpoint gather_uvs (gs : list mesh_group) (global_uvs : list uv) : list uv :=
  match gs with
  | [] => global_uvs
  | g :: gs' => gather_uvs gs' (global_uvs ++ group_uvs (grp g))
  end.

(** The padding or truncation of lines 592-595. *)
Definition fit_uvs (global_uvs : list uv) (nverts : nat) : list uv :=
  if Nat.ltb (List.length global_uvs) nverts then
    global_uvs ++ repeat (0, 0)%Z (nverts - List.length global_uvs)
  else if Nat.ltb nverts (List.length global_uvs) then firstn nverts global_uvs
  else global_uvs.

Definition v_line (scale : bool) (v : vertex) : string :=
  let '(x, y, z) := v in
  "v " ++ str_float32 scale x ++ " " ++ str_float32 scale y ++ " "
       ++ str_float32 scale z.

Definition vt_line (p : uv) : string :=
  let '(u, v) := p in "vt " ++ str_int u ++ " " ++ str_int v.

Definition f_line (t : triangle) : string :=
  let '(v1, v2, v3) := t in
  "f " ++ str_int (v1 + 1) ++ "/" ++ str_int (v1 + 1) ++ " "
       ++ str_int (v2 + 1) ++ "/" ++ str_int (v2 + 1) ++ " "
       ++ str_int (v3 + 1) ++ "/" ++ str_int (v3 + 1).

(** [obj_lines] for [self.original_vertices], [self.parser.vertex_groups]
    and [self.scale_enabled]. *)
Definition obj_lines (original_vertices : list vertex)
  (groups : list mesh_group) (scale_enabled : bool) : list string :=
  let global_uvs :=
    fit_uvs (gather_uvs groups []) (List.length original_vertices) in
  (map (v_line scale_enabled) original_vertices
   ++ map vt_line global_uvs
   ++ flat_map (fun g => map f_line (mesh_active_faces g)) groups)%list.

Definition newline : string := String (Ascii.ascii_of_nat 10) EmptyString.

(** ["\n".join(obj_lines)] *)
Definition obj_content (original_vertices : list vertex)
  (groups : list mesh_group) (scale_enabled : bool) : string :=
  String.concat newline (obj_lines original_vertices groups scale_enabled).

(** The lines of one kind in a list of lines. *)
Definition is_v_line (s : string) : bool := String.prefix "v " s.
Definition is_vt_line (s : string) : bool := String.prefix "vt " s.

End Exporter.

(** * Vocabulary of the properties *)

(** The classification byte of the face record at [off]. *)
Definition face_value (d : bytes) (off : Z) : Z :=
  match unpack_BBB d off with
  | Some (value, _, _) => value
  | None => 0
  end.

(** The [k]-th face of a strip: indices [(k+1, k+2, k+3)]. *)
Definition strip_face (d : bytes) (faces_start : Z) (k : nat) : face :=
  {| indices := (Z.of_nat k + 1, Z.of_nat k + 2, Z.of_nat k + 3);
     face_byte := face_value d (faces_start + Z.of_nat k * 3) |}.

Definition is_active (f : face) : bool := face_byte f mod 2 =? 0.

(** The position just after the face block of a group: ['faces_end'] leaves
    out the six undecoded bytes that follow the face signature. *)
Definition cursor_after (g : group) : Z := faces_end g + 6.

(** What the scanner guarantees about a group it appends. *)
Record group_ok (d : bytes) (g : group) : Prop := {
  ok_start : 0 <= start g < len d - 4;
  ok_XX : 0 <= XX g <= 0x2A;
  ok_vertices : len (vertices g) = XX g;
  ok_uvs : uvs g = [] \/ len (uvs g) = XX g;
  ok_vertices_offset : vertices_offset g = start g + 4;
  ok_vertices_end : vertices_end g = start g + 4 + 6 * XX g;
  ok_faces_offset : vertices_end g <= faces_offset g <= len d - 4;
  ok_faces_end : faces_end g = faces_offset g + 4 + 3 * (XX g - 2);
  ok_fits : cursor_after g <= len d;
  ok_active :
    active_faces g =
    filter is_active
      (map (strip_face d (faces_offset g + 10)) (seq 0 (Z.to_nat (XX g - 2))));
  ok_inactive :
    inactive_faces g =
    filter (fun f => negb (is_active f))
      (map (strip_face d (faces_offset g + 10)) (seq 0 (Z.to_nat (XX g - 2))))
}.

(** The state at the head of the [while] loop: the cursor and the groups
    appended so far.  [loop_step] is one iteration that goes back to the loop
    head; [None] when the loop is left instead, at its bound or by a
    [return]. *)
Definition loop_step (d : bytes) (st : Z * list group)
  : option (Z * list group) :=
  let '(i, gs) := st in
  if i <? len d - 4 then
    match loop_body d i with
    | Continue => Some (i + 1, gs)
    | Found g next => Some (next, gs ++ [g])
    | Fail _ | Raise => None
    end
  else None.

(** The loop head state after [n] iterations, when the loop gets that far. *)
Fixpoint loop_state (d : bytes) (n : nat) : option (Z * list group) :=
  match n with
  | O => Some (0, [])
  | S n' =>
      match loop_state d n' with
      | Some st => loop_step d st
      | None => None
      end
  end.

(** Later groups start at or after the cursor left by earlier ones. *)
Fixpoint apart (gs : list group) : Prop :=
  match gs with
  | [] => True
  | g :: gs' => Forall (fun h => cursor_after g <= start h) gs' /\ apart gs'
  end.

(** The invariant of the scan loop. *)
Record loop_inv (d : bytes) (n : nat) (i : Z) (gs : list group) : Prop := {
  inv_cursor : Z.of_nat n <= i;
  inv_bound : i <= len d;
  inv_groups : Forall (group_ok d) gs;
  inv_behind : Forall (fun g => cursor_after g <= i) gs;
  inv_apart : apart gs;
  inv_covered :
    forall k, 0 <= k < i ->
      (exists m gs', (m < n)%nat /\ loop_state d m = Some (k, gs')) \/
      (exists g, In g gs /\ start g < k < cursor_after g)
}.

(** The parser object after the scan of a freshly loaded buffer returned
    [True], and after it returned [False] with a message. *)
Definition scanned (d : bytes) (gs : list group) : PCKParser :=
  {| data := d; vertex_groups := gs; parse_success := true;
     error_message := EmptyString |}.

Definition rejected (d : bytes) (gs : list group) (msg : string) : PCKParser :=
  {| data := d; vertex_groups := gs; parse_success := false;
     error_message := msg |}.

(** [EE 00 03 69], three zero vertices, [9A 00 03 6A], six padding bytes of
    any value, one face record [00 00 00]. *)
Definition scenario_buffer (p1 p2 p3 p4 p5 p6 : byte) : bytes :=
  [xee; x00; x03; x69] ++ repeat x00 18 ++ [x9a; x00; x03; x6a]
  ++ [p1; p2; p3; p4; p5; p6] ++ [x00; x00; x00].

Definition scenario_group : group :=
  {| pattern := "pattern1";
     start := 0;
     XX := 3;
     vertices := [(0, 0, 0); (0, 0, 0); (0, 0, 0)];
     active_faces := [{| indices := (1, 2, 3); face_byte := 0 |}];
     inactive_faces := [];
     uvs := [];
     vertices_offset := 4;
     vertices_end := 22;
     uvs_span := None;
     faces_offset := 22;
     faces_end := 29 |}.

(** The buffer of the C1 scenario with [EE 00 2A 69] written into its first
    vertex: a header with count 42 at offset 4, followed by 27 bytes. *)
Definition nested_header_buffer : bytes :=
  [xee; x00; x03; x69] ++ [xee; x00; x2a; x69] ++ repeat x00 14
  ++ [x9a; x00; x03; x6a] ++ repeat x00 6 ++ [x00; x00; x00].

(** Two groups with [XX = 0] back to back and one more byte. *)
Definition overlap_buffer : bytes :=
  [xee; x00; x00; x69] ++ [x9a; x00; x00; x6a]
  ++ [xee; x00; x00; x69] ++ [x9a; x00; x00; x6a] ++ [x00].

(** The loop body runs with the cursor at [k]. *)
Definition tested (d : bytes) (k : Z) : Prop :=
  exists n gs, loop_state d n = Some (k, gs) /\ k < len d - 4.

(** All three indices of a triangle lie in [lo, hi). *)
Definition within (lo hi : Z) (t : triangle) : Prop :=
  let '(a, b, c) := t in lo <= a < hi /\ lo <= b < hi /\ lo <= c < hi.

(** The faces of a group are strip faces over its own vertices. *)
Definition faces_local (g : group) : Prop :=
  forall f, In f (active_faces g ++ inactive_faces g) ->
    exists k, 0 <= k /\ k + 3 <= len (vertices g) /\
              indices f = (k + 1, k + 2, k + 3).

(** What the remapper is to produce, group by group, from the number [base]
    of global vertices before the group: every face translated by
    [local - 1 + base], none dropped, all inside the group's own range of the
    global array. *)
Fixpoint remapped (base : Z) (mgs : list mesh_group) : Prop :=
  match mgs with
  | [] => True
  | mg :: rest =>
      let g := grp mg in
      base_index mg = base /\
      mesh_active_faces mg = map (adjusted_indices base) (active_faces g) /\
      mesh_inactive_faces mg = map (adjusted_indices base) (inactive_faces g) /\
      Forall (within base (base + len (vertices g)))
             (mesh_active_faces mg ++ mesh_inactive_faces mg) /\
      remapped (base + len (vertices g)) rest
  end.

(** The global triangle [t] is the face [f] with each of its three 1-based
    local indices [l] replaced by the 0-based global index [l - 1 + base]. *)
Definition translates (base : Z) (f : face) (t : triangle) : Prop :=
  let '(a, b, c) := indices f in
  let '(x, y, z) := t in
  x = a - 1 + base /\ y = b - 1 + base /\ z = c - 1 + base.

(** Group by group, from the number [base] of global vertices before the
    group: the global triangles are the group's faces, one for one and in
    order, each translated by [local - 1 + base]. *)
Fixpoint translated (base : Z) (mgs : list mesh_group) : Prop :=
  match mgs with
  | [] => True
  | mg :: rest =>
      let g := grp mg in
      base_index mg = base /\
      Forall2 (translates base) (active_faces g) (mesh_active_faces mg) /\
      Forall2 (translates base) (inactive_faces g) (mesh_inactive_faces mg) /\
      translated (base + len (vertices g)) rest
  end.

(** The byte at offset [k] of the buffer ([x00] outside of it). *)
Definition byte_at (d : bytes) (k : Z) : byte := nth (Z.to_nat k) d x00.

(** The vertex and the UV pair that the six and the four bytes from offset
    [off] encode. *)
Definition vertex_at (d : bytes) (off : Z) : vertex :=
  (int16_le (byte_at d off) (byte_at d (off + 1)),
   int16_le (byte_at d (off + 2)) (byte_at d (off + 3)),
   int16_le (byte_at d (off + 4)) (byte_at d (off + 5))).

Definition uv_at (d : bytes) (off : Z) : uv :=
  (int16_le (byte_at d off) (byte_at d (off + 1)),
   int16_le (byte_at d (off + 2)) (byte_at d (off + 3))).

(** A signed 16-bit value. *)
Definition int16 (v : Z) : Prop := -32768 <= v <= 32767.

(** The pattern and the count byte a group was read with: they are the four
    bytes at the group's start. *)
Definition group_header (d : bytes) (g : group) (p : pattern_info)
  (xxb : byte) : Prop :=
  In p patterns /\ pattern g = pattern_name p /\ XX g = int_of_byte xxb /\
  slice d (start g) (start g + 4) = prefix p ++ [xxb; x69].

(** Where the search for the face signature of a group starts: after its UV
    block when it has one, after its vertices otherwise. *)
Definition pos_after_uv (g : group) : Z :=
  match uvs_span g with
  | Some (_, uvs_end) => uvs_end
  | None => vertices_end g
  end.

(** The face record a group of count byte [XX g] has at rank [k]. *)
Definition face_record (d : bytes) (g : group) (k : Z) : face :=
  {| indices := (k + 1, k + 2, k + 3);
     face_byte := int_of_byte (byte_at d (faces_offset g + 10 + 3 * k)) |}.

Definition is_f_line (s : string) : bool := String.prefix "f " s.

(** A pattern B group with a UV block, one stray byte before the face
    signature, and one inactive and one active face. *)
Definition uv_buffer : bytes :=
  [x1b; x02; x04; x69]
  ++ [x01; x00; xff; xff; x00; x01] ++ repeat x00 18
  ++ [xf1; x01; x04; x65]
  ++ [x02; x00; x03; x00] ++ repeat x00 12
  ++ [xaa]
  ++ [xc7; x01; x04; x6a] ++ repeat xff 6
  ++ [x01; x00; x00] ++ [x02; x00; x00].

Definition uv_group : group :=
  {| pattern := "pattern2";
     start := 0;
     XX := 4;
     vertices := [(1, -1, 256); (0, 0, 0); (0, 0, 0); (0, 0, 0)];
     active_faces := [{| indices := (2, 3, 4); face_byte := 2 |}];
     inactive_faces := [{| indices := (1, 2, 3); face_byte := 1 |}];
     uvs := [(2, 3); (0, 0); (0, 0); (0, 0)];
     vertices_offset := 4;
     vertices_end := 28;
     uvs_span := Some (32, 48);
     faces_offset := 49;
     faces_end := 59 |}.

(** Two copies of the one-triangle scenario, one after the other, and the
    group of the second copy. *)
Definition two_group_buffer : bytes :=
  scenario_buffer x00 x00 x00 x00 x00 x00
  ++ scenario_buffer x00 x00 x00 x00 x00 x00.

Definition second_group : group :=
  {| pattern := "pattern1";
     start := 35;
     XX := 3;
     vertices := [(0, 0, 0); (0, 0, 0); (0, 0, 0)];
     active_faces := [{| indices := (1, 2, 3); face_byte := 0 |}];
     inactive_faces := [];
     uvs := [];
     vertices_offset := 39;
     vertices_end := 57;
     uvs_span := None;
     faces_offset := 57;
     faces_end := 64 |}.

(** * Properties *)

(** ** Byte strings *)

Lemma len_nonneg {A} (l : list A) : 0 <= len l.
Proof. unfold len. lia. Qed.

Lemma len_app {A} (a b : list A) : len (a ++ b) = len a + len b.
Proof. unfold len. rewrite length_app. lia. Qed.

Lemma len_skipn (d : bytes) (n : Z) :
  0 <= n <= len d -> len (skipn (Z.to_nat n) d) = len d - n.
Proof. unfold len. intros H. rewrite length_skipn. lia. Qed.

Lemma byte_eqb_eq (a b : byte) : Byte.eqb a b = true <-> a = b.
Proof.
  split.
  - apply Byte.byte_dec_bl.
  - apply Byte.byte_dec_lb.
Qed.

Lemma bytes_eqb_eq (a b : bytes) : bytes_eqb a b = true <-> a = b.
Proof.
  revert b. induction a as [|x a IH]; intros [|y b]; simpl;
    try (split; [discriminate | congruence]).
  - split; reflexivity.
  - rewrite andb_true_iff, byte_eqb_eq, IH. split.
    + intros [-> ->]. reflexivity.
    + intros E. inversion E. auto.
Qed.

Lemma startswith_app (d pat : bytes) :
  startswith d pat = true <-> exists rest, d = pat ++ rest.
Proof.
  revert d. induction pat as [|p pat IH]; intros d; simpl.
  - split; [intros _; exists d; reflexivity | reflexivity].
  - destruct d as [|x d].
    + split; [discriminate | intros [rest E]; discriminate].
    + rewrite andb_true_iff, byte_eqb_eq, IH. split.
      * intros [-> [rest ->]]. exists rest. reflexivity.
      * intros [rest E]. inversion E. split; [reflexivity | eauto].
Qed.

(** A prefix test is a slice test. *)
Lemma startswith_slice (d pat : bytes) (k : Z) :
  0 <= k ->
  (startswith (skipn (Z.to_nat k) d) pat = true
   <-> slice d k (k + len pat) = pat).
Proof.
  intros Hk. unfold slice.
  replace (Z.to_nat (k + len pat - k)) with (List.length pat)
    by (unfold len; lia).
  rewrite startswith_app. split.
  - intros [rest ->]. rewrite firstn_app, Nat.sub_diag, firstn_all.
    simpl. apply app_nil_r.
  - intros E. exists (skipn (List.length pat) (skipn (Z.to_nat k) d)).
    rewrite <- E at 1. symmetry. apply firstn_skipn.
Qed.

Lemma getitem_in_range (d : bytes) (i : Z) :
  0 <= i < len d -> exists b, getitem d i = Some b.
Proof.
  intros H. unfold getitem.
  destruct (i <? 0) eqn:E; [apply Z.ltb_lt in E; lia|]. rewrite E.
  destruct (nth_error d (Z.to_nat i)) eqn:N; [eauto|].
  apply nth_error_None in N. unfold len in H. lia.
Qed.

(** [find]: the result is [-1] or the lowest position from [start] where the
    pattern occurs. *)
Lemma find_in_spec (pat : bytes) (d : bytes) (n : nat) (r : Z) :
  find_in pat (skipn n d) (Z.of_nat n) = r ->
  (n <= List.length d)%nat ->
  (r = -1 /\
   forall k, Z.of_nat n <= k -> slice d k (k + len pat) <> pat \/ len d < k)
  \/ (Z.of_nat n <= r /\ r <= len d /\ slice d r (r + len pat) = pat /\
      forall k, Z.of_nat n <= k < r -> slice d k (k + len pat) <> pat).
Proof.
  remember (List.length d - n)%nat as m eqn:Hm.
  revert n r Hm. induction m as [|m IH]; intros n r Hm Hr Hn.
  - assert (n = List.length d) by lia. subst n.
    rewrite skipn_all in Hr. simpl in Hr.
    destruct (startswith [] pat) eqn:Sw.
    + right. subst r.
      refine (conj _ (conj _ (conj _ _))); try (unfold len; lia).
      apply startswith_slice; [lia|]. rewrite Nat2Z.id, skipn_all. exact Sw.
    + left. split; [auto|]. intros k Hk.
      destruct (Z.eq_dec k (Z.of_nat (List.length d))) as [->|Hne].
      * left. intros E. apply startswith_slice in E; [|lia].
        rewrite Nat2Z.id, skipn_all in E. congruence.
      * right. unfold len. lia.
  - destruct (skipn n d) as [|x tl] eqn:Sk.
    { apply (f_equal (@List.length byte)) in Sk. rewrite length_skipn in Sk.
      simpl in Sk. lia. }
    assert (Htl : skipn (S n) d = tl).
    { replace (S n) with (1 + n)%nat by lia.
      rewrite <- skipn_skipn, Sk. reflexivity. }
    simpl in Hr.
    destruct (startswith (x :: tl) pat) eqn:Sw.
    + right. subst r.
      refine (conj _ (conj _ (conj _ _))); try (unfold len; lia).
      apply startswith_slice; [lia|]. rewrite Nat2Z.id, Sk. exact Sw.
    + rewrite <- Htl in Hr.
      replace (Z.of_nat n + 1) with (Z.of_nat (S n)) in Hr by lia.
      assert (Hne : slice d (Z.of_nat n) (Z.of_nat n + len pat) <> pat).
      { intros E. apply startswith_slice in E; [|lia].
        rewrite Nat2Z.id, Sk in E. congruence. }
      destruct (IH (S n) r) as [[E Hall]|[H1 [H2 [H3 H4]]]]; try lia; auto.
      * left. split; [auto|]. intros k Hk.
        destruct (Z.eq_dec k (Z.of_nat n)) as [->|]; [left; auto|].
        apply Hall. lia.
      * right. refine (conj _ (conj _ (conj _ _))); try lia; auto.
        intros k Hk.
        destruct (Z.eq_dec k (Z.of_nat n)) as [->|]; [auto|].
        apply H4. lia.
Qed.

Lemma slice_length_le (d : bytes) (a b : Z) :
  0 <= a -> len (slice d a b) <= len d - a \/ len d < a.
Proof.
  intros Ha. unfold slice, len. rewrite length_firstn, length_skipn. lia.
Qed.

Lemma find_found (d pat : bytes) (start r : Z) :
  0 <= start -> find d pat start = r -> r <> -1 ->
  start <= r /\ r + len pat <= len d /\ slice d r (r + len pat) = pat /\
  forall k, start <= k < r -> slice d k (k + len pat) <> pat.
Proof.
  intros Hs Hf Hr. unfold find in Hf.
  destruct (len d <? start) eqn:E; [congruence|].
  apply Z.ltb_ge in E.
  replace start with (Z.of_nat (Z.to_nat start)) in Hf at 2 by lia.
  apply find_in_spec in Hf; [|unfold len in E; lia].
  destruct Hf as [[E1 _]|[H1 [H2 [H3 H4]]]]; [congruence|].
  refine (conj _ (conj _ (conj _ _))); try lia; auto.
  - destruct (slice_length_le d r (r + len pat)) as [L|L]; try lia.
    rewrite H3 in L. lia.
  - intros k Hk. apply H4. lia.
Qed.

Lemma find_absent (d pat : bytes) (start : Z) :
  0 <= start ->
  (forall k, start <= k <= len d - len pat -> slice d k (k + len pat) <> pat) ->
  find d pat start = -1.
Proof.
  intros Hs Hno. unfold find.
  destruct (len d <? start) eqn:E; [reflexivity|].
  apply Z.ltb_ge in E.
  remember (find_in pat (skipn (Z.to_nat start) d) start) as r eqn:Hr.
  symmetry in Hr.
  replace start with (Z.of_nat (Z.to_nat start)) in Hr at 2 by lia.
  apply find_in_spec in Hr; [|unfold len in E; lia].
  destruct Hr as [[E1 _]|[H1 [H2 [H3 H4]]]]; [exact E1|].
  exfalso. apply (Hno r); [|exact H3].
  destruct (slice_length_le d r (r + len pat)) as [L|L]; try lia.
  rewrite H3 in L. lia.
Qed.

(** ** Record decoding *)

Lemma range_multiple (m step : Z) :
  0 < step ->
  range (m * step) step = map (fun k => Z.of_nat k * step) (seq 0 (Z.to_nat m)).
Proof.
  intros Hs. unfold range.
  replace ((m * step + step - 1) / step) with m; [reflexivity|].
  replace (m * step + step - 1) with (m * step + (step - 1)) by lia.
  rewrite Z.div_add_l by lia. rewrite Z.div_small by lia. lia.
Qed.

Lemma skipn_long (d : bytes) (off k : Z) :
  0 <= off -> off + k <= len d ->
  (Z.to_nat k <= List.length (skipn (Z.to_nat off) d))%nat.
Proof. unfold len. intros. rewrite length_skipn. lia. Qed.

Lemma unpack_hhh_some (d : bytes) (off : Z) :
  0 <= off -> off + 6 <= len d -> exists v, unpack_hhh d off = Some v.
Proof.
  intros H0 H1. unfold unpack_hhh.
  destruct (off <? 0) eqn:E; [apply Z.ltb_lt in E; lia|].
  pose proof (skipn_long d off 6 H0 H1) as L.
  destruct (skipn (Z.to_nat off) d) as [|? [|? [|? [|? [|? [|? ?]]]]]];
    simpl in L; try lia; eauto.
Qed.

Lemma unpack_hh_some (d : bytes) (off : Z) :
  0 <= off -> off + 4 <= len d -> exists v, unpack_hh d off = Some v.
Proof.
  intros H0 H1. unfold unpack_hh.
  destruct (off <? 0) eqn:E; [apply Z.ltb_lt in E; lia|].
  pose proof (skipn_long d off 4 H0 H1) as L.
  destruct (skipn (Z.to_nat off) d) as [|? [|? [|? [|? ?]]]];
    simpl in L; try lia; eauto.
Qed.

Lemma unpack_BBB_some (d : bytes) (off : Z) :
  0 <= off -> off + 3 <= len d -> exists v, unpack_BBB d off = Some v.
Proof.
  intros H0 H1. unfold unpack_BBB.
  destruct (off <? 0) eqn:E; [apply Z.ltb_lt in E; lia|].
  pose proof (skipn_long d off 3 H0 H1) as L.
  destruct (skipn (Z.to_nat off) d) as [|? [|? [|? ?]]];
    simpl in L; try lia; eauto.
Qed.

(** Inside the bounds check of line 98 no vertex read fails. *)
Lemma read_vertices_some (d : bytes) (vstart : Z) (n a : nat) :
  0 <= vstart -> vstart + 6 * Z.of_nat (a + n) <= len d ->
  exists vs,
    read_vertices d vstart (map (fun k => Z.of_nat k * 6) (seq a n)) = Some vs
    /\ List.length vs = n.
Proof.
  intros H0. revert a. induction n as [|n IH]; intros a H1; simpl.
  - exists []. auto.
  - destruct (unpack_hhh_some d (vstart + Z.of_nat a * 6)) as [v ->]; try lia.
    destruct (IH (S a)) as [vs [-> L]]; [lia|].
    exists (v :: vs). simpl. auto.
Qed.

Lemma read_uvs_some (d : bytes) (ustart : Z) (n a : nat) :
  0 <= ustart -> ustart + 4 * Z.of_nat (a + n) <= len d ->
  exists us,
    read_uvs d ustart (map (fun k => Z.of_nat k * 4) (seq a n)) = Some us
    /\ List.length us = n.
Proof.
  intros H0. revert a. induction n as [|n IH]; intros a H1; simpl.
  - exists []. auto.
  - destruct (unpack_hh_some d (ustart + Z.of_nat a * 4)) as [v ->]; try lia.
    destruct (IH (S a)) as [us [-> L]]; [lia|].
    exists (v :: us). simpl. auto.
Qed.

(** Inside the bounds check of line 148 the face loop reads every record,
    drops none and splits them by the parity of the first byte. *)
Lemma read_faces_strip (d : bytes) (fstart xx : Z) (n a : nat)
  (act inact : list face) :
  0 <= fstart -> fstart + 3 * Z.of_nat (a + n) <= len d ->
  Z.of_nat (a + n) + 2 <= xx ->
  read_faces d fstart xx (map (fun k => Z.of_nat k * 3) (seq a n)) act inact
  = Some (act ++ filter is_active (map (strip_face d fstart) (seq a n)),
          inact ++ filter (fun f => negb (is_active f))
                          (map (strip_face d fstart) (seq a n))).
Proof.
  intros H0. revert a act inact.
  induction n as [|n IH]; intros a act inact H1 H2;
    cbn [map seq filter read_faces].
  - rewrite !app_nil_r. reflexivity.
  - destruct (unpack_BBB_some d (fstart + Z.of_nat a * 3)) as [[[v b] c] U];
      try lia.
    assert (A : is_active (strip_face d fstart a) = (v mod 2 =? 0)).
    { unfold is_active, strip_face, face_value. simpl. rewrite U. reflexivity. }
    assert (F : {| indices := (Z.of_nat a + 1, Z.of_nat a + 1 + 1,
                               Z.of_nat a + 1 + 2);
                   face_byte := v |} = strip_face d fstart a).
    { unfold strip_face, face_value. rewrite U. f_equal. f_equal; [f_equal|]; lia. }
    rewrite U, Z.div_mul by lia. cbv zeta. rewrite F, A.
    destruct (xx <? Z.of_nat a + 1 + 2) eqn:E; [apply Z.ltb_lt in E; lia|].
    destruct (v mod 2 =? 0) eqn:P; cbn [negb]; rewrite IH by lia;
      rewrite <- app_assoc; reflexivity.
Qed.

(** ** One pass of the scan loop *)

Lemma int_of_byte_range (b : byte) : 0 <= int_of_byte b <= 255.
Proof.
  unfold int_of_byte. pose proof (Byte.to_N_bounded b). lia.
Qed.

Lemma int_of_byte_inj (a b : byte) : int_of_byte a = int_of_byte b -> a = b.
Proof.
  unfold int_of_byte. intros E. apply N2Z.inj in E.
  apply (f_equal Byte.of_N) in E. rewrite !Byte.of_to_N in E. congruence.
Qed.

Lemma vertex_header_some (d : bytes) (i : Z) (p : pattern_info) (xxb : byte) :
  vertex_header d i p = Some (Some xxb) <->
  slice d i (i + 2) = prefix p /\ getitem d (i + 2) = Some xxb /\
  int_of_byte xxb <= 0x2A /\ getitem d (i + 3) = Some x69.
Proof.
  unfold vertex_header.
  destruct (bytes_eqb (slice d i (i + 2)) (prefix p)) eqn:E.
  - apply bytes_eqb_eq in E.
    destruct (getitem d (i + 2)) as [b|] eqn:G2.
    + pose proof (int_of_byte_range b) as R.
      destruct ((0 <=? int_of_byte b) && (int_of_byte b <=? 42)) eqn:C; simpl.
      * apply andb_true_iff in C. destruct C as [_ C]. apply Z.leb_le in C.
        destruct (getitem d (i + 3)) as [t|] eqn:G3.
        -- destruct (int_of_byte t =? 105) eqn:T; simpl.
           ++ apply Z.eqb_eq in T.
              assert (t = x69) by (apply int_of_byte_inj; exact T). subst t.
              split.
              ** intros H. inversion H. subst. auto.
              ** intros [_ [H _]]. congruence.
           ++ apply Z.eqb_neq in T. split; [discriminate|].
              intros [_ [_ [_ H]]]. inversion H. subst t. elim T. reflexivity.
        -- split; [discriminate|]. intros [_ [_ [_ H]]]. discriminate.
      * split; [discriminate|]. intros [_ [H [L _]]]. inversion H. subst b.
        apply andb_false_iff in C.
        destruct C as [C|C]; [apply Z.leb_gt in C | apply Z.leb_gt in C]; lia.
    + split; [discriminate|]. intros [_ [H _]]. discriminate.
  - split; [discriminate|]. intros [H _]. apply bytes_eqb_eq in H. congruence.
Qed.

(** Inside the loop's bound, lines 75-81 index the buffer safely. *)
Lemma vertex_header_no_raise (d : bytes) (i : Z) (p : pattern_info) :
  0 <= i < len d - 4 -> vertex_header d i p <> None.
Proof.
  intros H. unfold vertex_header.
  destruct (bytes_eqb _ _); [|discriminate].
  destruct (getitem_in_range d (i + 2)) as [b ->]; [lia|].
  destruct (negb _); [discriminate|].
  destruct (getitem_in_range d (i + 3)) as [t ->]; [lia|].
  destruct (negb _); discriminate.
Qed.

Lemma read_uv_block_inr (d : bytes) (p : pattern_info) (xxb : byte) (pos : Z)
  (us : list uv) (span : option (Z * Z)) (pos' : Z) :
  0 <= pos <= len d ->
  read_uv_block d p xxb pos = inr (us, span, pos') ->
  pos <= pos' <= len d /\ (us = [] \/ len us = int_of_byte xxb).
Proof.
  intros Hp. unfold read_uv_block.
  pose proof (int_of_byte_range xxb) as R.
  destruct (pos + 4 <=? len d) eqn:E1.
  - destruct (bytes_eqb _ _) eqn:E2.
    + destruct (len d <? pos + 4 + int_of_byte xxb * 4) eqn:E3; [discriminate|].
      apply Z.ltb_ge in E3.
      rewrite range_multiple by lia.
      destruct (read_uvs_some d (pos + 4) (Z.to_nat (int_of_byte xxb)) 0)
        as [us0 [-> L]]; try lia.
      intros H. inversion H. subst. split; [lia|]. right. unfold len. lia.
    + intros H. inversion H. subst. split; [lia | auto].
  - intros H. inversion H. subst. split; [lia | auto].
Qed.

(** The UV block never fails to parse once it passed its bounds check. *)
Lemma read_uv_block_inl (d : bytes) (p : pattern_info) (xxb : byte) (pos : Z)
  (msg : string) :
  0 <= pos -> read_uv_block d p xxb pos = inl msg -> msg = msg_uvs.
Proof.
  intros Hp. unfold read_uv_block.
  pose proof (int_of_byte_range xxb) as R.
  destruct (pos + 4 <=? len d); [|discriminate].
  destruct (bytes_eqb _ _); [|discriminate].
  destruct (len d <? pos + 4 + int_of_byte xxb * 4) eqn:E3; [congruence|].
  apply Z.ltb_ge in E3. rewrite range_multiple by lia.
  destruct (read_uvs_some d (pos + 4) (Z.to_nat (int_of_byte xxb)) 0)
    as [us0 [-> L]]; try lia.
  discriminate.
Qed.

Lemma faces_prefix_len (p : pattern_info) (xxb : byte) :
  In p patterns -> len (face_signature p xxb) = 4.
Proof.
  intros [<-|[<-|[]]]; reflexivity.
Qed.

Lemma read_faces_in_bounds (d : bytes) (fstart xx : Z) :
  0 <= fstart -> fstart + (xx - 2) * 3 <= len d ->
  read_faces d fstart xx (range ((xx - 2) * 3) 3) [] []
  = Some (filter is_active
            (map (strip_face d fstart) (seq 0 (Z.to_nat (xx - 2)))),
          filter (fun f => negb (is_active f))
            (map (strip_face d fstart) (seq 0 (Z.to_nat (xx - 2))))).
Proof.
  intros H0 H1. rewrite range_multiple by lia.
  destruct (Z.to_nat (xx - 2)) as [|n] eqn:En; [reflexivity|].
  rewrite <- En. rewrite read_faces_strip by lia. reflexivity.
Qed.

(** The face section either is not found, or does not fit, or yields the
    group; it never fails to parse a record. *)
Lemma read_face_block_cases (d : bytes) (p : pattern_info) (i : Z) (xxb : byte)
  (vs : list vertex) (us : list uv) (span : option (Z * Z)) (pos : Z) :
  In p patterns ->
  0 <= i < len d - 4 ->
  int_of_byte xxb <= 0x2A ->
  len vs = int_of_byte xxb ->
  us = [] \/ len us = int_of_byte xxb ->
  i + 4 + 6 * int_of_byte xxb <= pos ->
  match read_face_block d p i xxb vs us span pos with
  | Found g next =>
      group_ok d g /\ start g = i /\ next = cursor_after g /\
      pattern g = pattern_name p /\ XX g = int_of_byte xxb
  | Fail msg =>
      (msg = msg_no_faces /\ find d (face_signature p xxb) pos = -1) \/
      (msg = msg_faces /\ find d (face_signature p xxb) pos <> -1)
  | Continue | Raise => False
  end.
Proof.
  intros Hp Hi Hxx Hvs Hus Hpos. unfold read_face_block.
  pose proof (int_of_byte_range xxb) as R.
  rewrite (faces_prefix_len p xxb Hp).
  pose proof (faces_prefix_len p xxb Hp) as Ls.
  set (sig := face_signature p xxb) in *.
  destruct (find d sig pos =? -1) eqn:E1.
  { apply Z.eqb_eq in E1. auto. }
  apply Z.eqb_neq in E1.
  destruct (find_found d sig pos (find d sig pos)) as [F1 [F2 [F3 F4]]];
    try lia; auto.
  set (pf := find d sig pos) in *.
  destruct (len d <? pf + 4 + 6 + (int_of_byte xxb - 2) * 3) eqn:E2; [auto|].
  apply Z.ltb_ge in E2.
  rewrite read_faces_in_bounds by lia.
  unfold cursor_after. cbn [start pattern XX faces_end].
  refine (conj _ (conj eq_refl (conj _ (conj eq_refl eq_refl)))); [|lia].
  replace (pf + 4 + 6) with (pf + 10) by lia.
  constructor; cbn [start XX vertices uvs vertices_offset vertices_end
                    faces_offset faces_end active_faces inactive_faces];
    auto; try lia.
  unfold cursor_after. cbn [faces_end]. lia.
Qed.

(** A pattern tried inside the loop's bound never raises, and its only
    failures are the three bounds checks and the missing face signature: the
    [struct.error] handlers are dead code. *)
Lemma try_pattern_cases (d : bytes) (i : Z) (p : pattern_info) :
  In p patterns -> 0 <= i < len d - 4 ->
  match try_pattern d i p with
  | Continue => forall xxb, vertex_header d i p <> Some (Some xxb)
  | Found g next =>
      group_ok d g /\ start g = i /\ next = cursor_after g /\
      pattern g = pattern_name p
  | Fail msg =>
      msg = msg_vertices \/ msg = msg_uvs \/ msg = msg_no_faces \/
      msg = msg_faces
  | Raise => False
  end.
Proof.
  intros Hp Hi. unfold try_pattern.
  pose proof (vertex_header_no_raise d i p Hi) as NR.
  destruct (vertex_header d i p) as [[xxb|]|] eqn:VH; [| |congruence].
  2:{ intros xxb. discriminate. }
  apply vertex_header_some in VH. destruct VH as [_ [_ [Hxx _]]].
  pose proof (int_of_byte_range xxb) as R.
  destruct (len d <? i + 4 + int_of_byte xxb * 6) eqn:E1; [auto|].
  apply Z.ltb_ge in E1. rewrite range_multiple by lia.
  destruct (read_vertices_some d (i + 4) (Z.to_nat (int_of_byte xxb)) 0)
    as [vs [-> L]]; try lia.
  destruct (read_uv_block d p xxb (i + 4 + int_of_byte xxb * 6))
    as [msg|[[us span] pos]] eqn:UV.
  - apply read_uv_block_inl in UV; [auto | lia].
  - apply read_uv_block_inr in UV; [|lia]. destruct UV as [Hpos Hus].
    assert (Hvs : len vs = int_of_byte xxb) by (unfold len; lia).
    assert (Hpos' : i + 4 + 6 * int_of_byte xxb <= pos) by lia.
    pose proof (read_face_block_cases d p i xxb vs us span pos
                  Hp Hi Hxx Hvs Hus Hpos') as C.
    destruct (read_face_block d p i xxb vs us span pos) as [|g next|msg|].
    + exact (False_ind _ C).
    + destruct C as [H1 [H2 [H3 [H4 _]]]]; auto.
    + destruct C as [[-> _]|[-> _]]; auto.
    + exact C.
Qed.

Lemma loop_body_cases (d : bytes) (i : Z) :
  0 <= i < len d - 4 ->
  match loop_body d i with
  | Continue =>
      forall p xxb, In p patterns -> vertex_header d i p <> Some (Some xxb)
  | Found g next => group_ok d g /\ start g = i /\ next = cursor_after g
  | Fail msg =>
      msg = msg_vertices \/ msg = msg_uvs \/ msg = msg_no_faces \/
      msg = msg_faces
  | Raise => False
  end.
Proof.
  intros Hi. unfold loop_body, patterns, for_patterns.
  pose proof (try_pattern_cases d i pattern1 (or_introl eq_refl) Hi) as C1.
  pose proof (try_pattern_cases d i pattern2 (or_intror (or_introl eq_refl)) Hi)
    as C2.
  destruct (try_pattern d i pattern1) as [|g next|msg|].
  - destruct (try_pattern d i pattern2) as [|g next|msg|].
    + intros p xxb [<-|[<-|[]]]; auto.
    + destruct C2 as [H1 [H2 [H3 _]]]. auto.
    + exact C2.
    + exact C2.
  - destruct C1 as [H1 [H2 [H3 _]]]. auto.
  - exact C1.
  - exact C1.
Qed.

Lemma apart_snoc (gs : list group) (g : group) :
  apart gs -> Forall (fun h => cursor_after h <= start g) gs ->
  apart (gs ++ [g]).
Proof.
  induction gs as [|h gs IH]; simpl; intros A F.
  - auto.
  - destruct A as [A1 A2]. inversion F; subst. split.
    + apply Forall_app. split; [exact A1 | constructor; auto].
    + apply IH; auto.
Qed.

Lemma apart_app (pre : list group) (g1 : group) (post : list group)
  (g2 : group) :
  apart (pre ++ g1 :: post) -> In g2 post -> cursor_after g1 <= start g2.
Proof.
  induction pre as [|h pre IH]; simpl; intros [A1 A2] Hin.
  - rewrite Forall_forall in A1. apply A1. exact Hin.
  - apply IH; auto.
Qed.

Lemma group_ok_cursor (d : bytes) (g : group) :
  group_ok d g -> start g + 8 <= faces_offset g + 4 <= cursor_after g.
Proof.
  intros [? ? ? ? ? ? ? ? ? ? ?]. unfold cursor_after. lia.
Qed.

Lemma loop_state_inv (d : bytes) (n : nat) (i : Z) (gs : list group) :
  loop_state d n = Some (i, gs) -> loop_inv d n i gs.
Proof.
  revert i gs. induction n as [|n IH]; intros i gs H.
  - simpl in H. inversion H. subst.
    constructor; simpl; auto; try lia. apply len_nonneg.
  - simpl in H. destruct (loop_state d n) as [[i0 gs0]|] eqn:S0; [|discriminate].
    destruct (IH i0 gs0 eq_refl) as [I1 I0 I2 I3 I4 I5].
    unfold loop_step in H.
    destruct (i0 <? len d - 4) eqn:B; [|discriminate]. apply Z.ltb_lt in B.
    pose proof (loop_body_cases d i0 (conj (Z.le_trans _ _ _ (Nat2Z.is_nonneg n) I1) B)) as C.
    destruct (loop_body d i0) as [|g next|msg|]; try discriminate.
    + inversion H. subst. constructor; auto; try lia.
      * eapply Forall_impl; [|exact I3]. simpl. intros; lia.
      * intros k Hk. destruct (Z.eq_dec k i0) as [->|].
        -- left. exists n, gs. auto.
        -- assert (Hk0 : 0 <= k < i0) by lia.
           destruct (I5 k Hk0) as [[m [gs' [Hm E]]]|R]; [|auto].
           left. exists m, gs'. split; [lia | auto].
    + inversion H. subst. destruct C as [C1 [C2 C3]].
      pose proof (group_ok_cursor d g C1) as GC.
      pose proof (ok_fits d g C1) as GF.
      constructor; try lia.
      * apply Forall_app. split; [auto | constructor; auto].
      * apply Forall_app. split.
        -- eapply Forall_impl; [|exact I3]. simpl. intros; lia.
        -- constructor; [lia | constructor].
      * apply apart_snoc; auto. rewrite C2. exact I3.
      * intros k Hk. destruct (Z_lt_le_dec k (start g)) as [L|L].
        -- assert (Hk0 : 0 <= k < i0) by lia.
           destruct (I5 k Hk0) as [[m [gs' [Hm E]]]|[h [Hh R]]].
           ++ left. exists m, gs'. split; [lia | auto].
           ++ right. exists h. split; [apply in_or_app; auto | auto].
        -- destruct (Z.eq_dec k (start g)) as [->|].
           ++ left. exists n, gs0. split; [lia | rewrite C2; exact S0].
           ++ right. exists g. split; [apply in_or_app; simpl; auto | lia].
Qed.

(** ** The whole scan *)

Lemma scan_loop_from_state (d : bytes) (n : nat) (i : Z) (gs : list group) :
  loop_state d n = Some (i, gs) ->
  forall fuel, scan_loop d (n + fuel) 0 [] = scan_loop d fuel i gs.
Proof.
  revert i gs. induction n as [|n IH]; intros i gs H fuel.
  - simpl in H. inversion H. reflexivity.
  - simpl in H. destruct (loop_state d n) as [[i0 gs0]|] eqn:S0; [|discriminate].
    replace (S n + fuel)%nat with (n + S fuel)%nat by lia.
    rewrite (IH i0 gs0 eq_refl (S fuel)). simpl.
    unfold loop_step in H.
    destruct (i0 <? len d - 4); [|discriminate].
    destruct (loop_body d i0); try discriminate; inversion H; reflexivity.
Qed.

(** How a run of the loop ends, in terms of the loop states: at a state
    whose cursor is past the bound, or at a state where the body fails. *)
Lemma scan_loop_run (d : bytes) (fuel : nat) :
  forall n i gs,
    loop_state d n = Some (i, gs) ->
    Z.max 0 (len d - 4 - i) < Z.of_nat fuel ->
    exists m i' gs',
      (n <= m)%nat /\ loop_state d m = Some (i', gs') /\
      ((len d - 4 <= i' /\
        scan_loop d fuel i gs = Returned true (gs', EmptyString)) \/
       (i' < len d - 4 /\ exists msg,
           loop_body d i' = Fail msg /\
           scan_loop d fuel i gs = Returned false (gs', msg))).
Proof.
  induction fuel as [|fuel IH]; intros n i gs H F; [lia|].
  pose proof (loop_state_inv d n i gs H) as Inv.
  simpl. destruct (i <? len d - 4) eqn:B.
  - apply Z.ltb_lt in B.
    assert (Hi : 0 <= i < len d - 4) by (destruct Inv; lia).
    pose proof (loop_body_cases d i Hi) as C.
    destruct (loop_body d i) as [|g next|msg|] eqn:LB.
    + assert (S1 : loop_state d (S n) = Some (i + 1, gs)).
      { simpl. rewrite H. unfold loop_step.
        destruct (i <? len d - 4) eqn:B'; [|apply Z.ltb_ge in B'; lia].
        rewrite LB. reflexivity. }
      destruct (IH (S n) (i + 1) gs S1) as [m [i' [gs' [L [E R]]]]]; [lia|].
      exists m, i', gs'. split; [lia | auto].
    + assert (S1 : loop_state d (S n) = Some (next, gs ++ [g])).
      { simpl. rewrite H. unfold loop_step.
        destruct (i <? len d - 4) eqn:B'; [|apply Z.ltb_ge in B'; lia].
        rewrite LB. reflexivity. }
      destruct C as [C1 [C2 C3]].
      pose proof (group_ok_cursor d g C1) as GC.
      destruct (IH (S n) next (gs ++ [g]) S1) as [m [i' [gs' [L [E R]]]]]; [lia|].
      exists m, i', gs'. split; [lia | auto].
    + exists n, i, gs. split; [lia|]. split; [auto|]. right. split; [lia|].
      exists msg. auto.
    + contradiction.
  - apply Z.ltb_ge in B. exists n, i, gs. split; [lia|]. split; [auto|].
    left. auto.
Qed.

Lemma find_vertex_patterns_run (d : bytes) :
  exists m i gs,
    loop_state d m = Some (i, gs) /\
    ((len d - 4 <= i /\
      find_vertex_patterns (loaded d) = Returned true (scanned d gs)) \/
     (i < len d - 4 /\ exists msg,
         loop_body d i = Fail msg /\
         find_vertex_patterns (loaded d) = Returned false (rejected d gs msg))).
Proof.
  destruct (scan_loop_run d (S (List.length d)) 0 0 [] eq_refl)
    as [m [i [gs [_ [E R]]]]].
  { unfold len. lia. }
  exists m, i, gs. split; [exact E|].
  unfold find_vertex_patterns, loaded. cbn [data vertex_groups].
  destruct R as [[B ->]|[B [msg [LB ->]]]].
  - left. auto.
  - right. split; [auto|]. exists msg. auto.
Qed.

(** The loop never runs out of fuel and nothing is raised: the scan always
    returns. *)
Lemma find_vertex_patterns_total (d : bytes) :
  exists b self, find_vertex_patterns (loaded d) = Returned b self.
Proof.
  destruct (find_vertex_patterns_run d)
    as [m [i [gs [_ [[_ ->]|[_ [msg [_ ->]]]]]]]]; eauto.
Qed.

(** The groups a scan returns are those of a loop state; when it returns
    [True] the cursor of that state is at the loop's bound. *)
Lemma returned_groups_state (d : bytes) (b : bool) (self : PCKParser) :
  find_vertex_patterns (loaded d) = Returned b self ->
  exists m i, loop_state d m = Some (i, vertex_groups self).
Proof.
  intros Hrun.
  destruct (find_vertex_patterns_run d) as [m [i [gs [St R]]]].
  exists m, i.
  destruct R as [[_ E]|[_ [msg [_ E]]]]; rewrite E in Hrun;
    inversion Hrun; exact St.
Qed.

Lemma returned_true_state (d : bytes) (self : PCKParser) :
  find_vertex_patterns (loaded d) = Returned true self ->
  self = scanned d (vertex_groups self) /\
  exists m i, loop_state d m = Some (i, vertex_groups self) /\ len d - 4 <= i.
Proof.
  intros Hrun.
  destruct (find_vertex_patterns_run d) as [m [i [gs [St R]]]].
  destruct R as [[B E]|[_ [msg [_ E]]]]; rewrite E in Hrun; [|discriminate].
  inversion Hrun. subst self. split; [reflexivity|].
  exists m, i. auto.
Qed.

(** Everything the loop invariant says about the groups of a loop state. *)
Ltac scan_invariant St :=
  match type of St with
  | loop_state ?d ?m = Some (?i, ?gs) =>
      let Inv := fresh "Inv" in
      pose proof (loop_state_inv d m i gs St) as Inv
  end.

(** A body failure at a loop state decides the whole scan. *)
Lemma find_vertex_patterns_fail_at (d : bytes) (n : nat) (i : Z)
  (gs : list group) (msg : string) :
  loop_state d n = Some (i, gs) -> i < len d - 4 ->
  loop_body d i = Fail msg ->
  find_vertex_patterns (loaded d) = Returned false (rejected d gs msg).
Proof.
  intros H B LB.
  destruct (loop_state_inv d n i gs H) as [I1 I0 _ _ _ _].
  unfold find_vertex_patterns, loaded. cbn [data vertex_groups].
  assert (Hn : (n <= List.length d)%nat) by (unfold len in *; lia).
  replace (S (List.length d)) with (n + S (List.length d - n))%nat by lia.
  rewrite (scan_loop_from_state d n i gs H). simpl.
  destruct (i <? len d - 4) eqn:B'; [|apply Z.ltb_ge in B'; lia].
  rewrite LB. reflexivity.
Qed.

(** A scan that ends at the loop's bound, seen from any of its states. *)
Lemma loop_state_unique_end (d : bytes) (n m : nat) (i j : Z)
  (gs hs : list group) :
  loop_state d n = Some (i, gs) -> loop_step d (i, gs) = None ->
  loop_state d m = Some (j, hs) -> (m <= n)%nat.
Proof.
  intros Hn Hstep Hm.
  destruct (le_lt_dec m n) as [L|L]; [exact L|]. exfalso.
  assert (G : forall k, loop_state d (S n + k) = None).
  { induction k as [|k IHk].
    - rewrite Nat.add_0_r. simpl. rewrite Hn. exact Hstep.
    - replace (S n + S k)%nat with (S (S n + k)) by lia.
      simpl. simpl in IHk. rewrite IHk. reflexivity. }
  specialize (G (m - S n)%nat).
  replace (S n + (m - S n))%nat with m in G by lia. congruence.
Qed.

Lemma filter_split_length {A} (f : A -> bool) (l : list A) :
  (List.length (filter f l) + List.length (filter (fun x => negb (f x)) l)
   = List.length l)%nat.
Proof.
  induction l as [|x l IH]; simpl; [reflexivity|].
  destruct (f x); simpl; lia.
Qed.

Lemma filter_split_in {A} (f : A -> bool) (l : list A) (x : A) :
  In x l -> In x (filter f l ++ filter (fun y => negb (f y)) l).
Proof.
  intros H. apply in_or_app. destruct (f x) eqn:E.
  - left. apply filter_In. auto.
  - right. apply filter_In. rewrite E. auto.
Qed.

(** No candidate header at a tested position: the cursor advances by one. *)
Lemma loop_body_no_header (d : bytes) (i : Z) :
  0 <= i < len d - 4 ->
  (forall p xxb, In p patterns -> vertex_header d i p <> Some (Some xxb)) ->
  loop_body d i = Continue.
Proof.
  intros Hi Hno.
  assert (T : forall p, In p patterns -> try_pattern d i p = Continue).
  { intros p Hp. unfold try_pattern.
    pose proof (vertex_header_no_raise d i p Hi) as NR.
    destruct (vertex_header d i p) as [[xxb|]|] eqn:VH; [|reflexivity|congruence].
    elim (Hno p xxb Hp VH). }
  unfold loop_body, patterns, for_patterns.
  rewrite (T pattern1), (T pattern2); simpl; auto.
Qed.

(** The two prefixes differ, so at a position where one pattern's header is
    a candidate the loop body is that pattern's pass. *)
Lemma loop_body_at_header (d : bytes) (i : Z) (p : pattern_info) (xxb : byte) :
  In p patterns -> 0 <= i < len d - 4 ->
  vertex_header d i p = Some (Some xxb) ->
  loop_body d i = try_pattern d i p /\ try_pattern d i p <> Continue.
Proof.
  intros Hp Hi VH.
  assert (NC : try_pattern d i p <> Continue).
  { pose proof (try_pattern_cases d i p Hp Hi) as C.
    destruct (try_pattern d i p); try discriminate.
    elim (C xxb VH). }
  split; [|exact NC].
  unfold loop_body, patterns, for_patterns.
  destruct Hp as [<-|[<-|[]]].
  - destruct (try_pattern d i pattern1); congruence.
  - assert (P1 : try_pattern d i pattern1 = Continue).
    { apply vertex_header_some in VH. destruct VH as [Sl _].
      unfold try_pattern, vertex_header. rewrite Sl. reflexivity. }
    rewrite P1. destruct (try_pattern d i pattern2); congruence.
Qed.

(** The cursor moves forward at every iteration. *)
Lemma loop_state_forward (d : bytes) (k m : nat) (i j : Z) (gs hs : list group) :
  loop_state d m = Some (j, hs) -> loop_state d (m + k) = Some (i, gs) ->
  j + Z.of_nat k <= i.
Proof.
  revert i gs. induction k as [|k IH]; intros i gs Hm Hk.
  - rewrite Nat.add_0_r in Hk. rewrite Hm in Hk. inversion Hk. lia.
  - replace (m + S k)%nat with (S (m + k)) in Hk by lia.
    pose proof (loop_state_inv d _ _ _ Hk) as Inv.
    simpl in Hk.
    destruct (loop_state d (m + k)) as [[i0 gs0]|] eqn:S0; [|discriminate].
    specialize (IH i0 gs0 Hm eq_refl).
    pose proof (loop_state_inv d _ _ _ S0) as Inv0.
    unfold loop_step in Hk.
    destruct (i0 <? len d - 4) eqn:B; [|discriminate]. apply Z.ltb_lt in B.
    assert (Hi0 : 0 <= i0 < len d - 4) by (destruct Inv0; lia).
    pose proof (loop_body_cases d i0 Hi0) as C.
    destruct (loop_body d i0) as [|g next|msg|]; try discriminate.
    + inversion Hk. lia.
    + inversion Hk. subst. destruct C as [C1 [C2 C3]].
      pose proof (group_ok_cursor d g C1). lia.
Qed.

(** Up to the first candidate header the cursor visits every offset, with
    no group: the offset of the first header of a buffer is a loop state. *)
Lemma first_header_state (d : bytes) (n : nat) :
  Z.of_nat n <= Z.max 0 (len d - 4) ->
  (forall k p xxb, 0 <= k < Z.of_nat n -> In p patterns ->
                   vertex_header d k p <> Some (Some xxb)) ->
  loop_state d n = Some (Z.of_nat n, []).
Proof.
  induction n as [|n IH]; intros B Hno; [reflexivity|].
  cbn [loop_state]. rewrite IH; [|lia|intros k p xxb Hk; apply Hno; lia].
  unfold loop_step.
  destruct (Z.of_nat n <? len d - 4) eqn:E; [|apply Z.ltb_ge in E; lia].
  apply Z.ltb_lt in E.
  rewrite loop_body_no_header; [|lia|intros p xxb; apply Hno; lia].
  f_equal. f_equal. lia.
Qed.

(** ** A pattern B group with UVs, a gap and both kinds of faces *)

Example pattern2_with_uvs :
  let d := [x1b; x02; x04; x69]
           ++ [x01; x00; xff; xff; x00; x01] ++ repeat x00 18
           ++ [xf1; x01; x04; x65]
           ++ [x02; x00; x03; x00] ++ repeat x00 12
           ++ [xaa]
           ++ [xc7; x01; x04; x6a] ++ repeat xff 6
           ++ [x01; x00; x00] ++ [x02; x00; x00] in
  let g := {| pattern := "pattern2";
              start := 0;
              XX := 4;
              vertices := [(1, -1, 256); (0, 0, 0); (0, 0, 0); (0, 0, 0)];
              active_faces := [{| indices := (2, 3, 4); face_byte := 2 |}];
              inactive_faces := [{| indices := (1, 2, 3); face_byte := 1 |}];
              uvs := [(2, 3); (0, 0); (0, 0); (0, 0)];
              vertices_offset := 4;
              vertices_end := 28;
              uvs_span := Some (32, 48);
              faces_offset := 49;
              faces_end := 59 |} in
  parse (inr d)
  = Returned true
      (scanned d [g],
       Some {| model_vertices := vertices g;
               model_groups :=
                 [{| grp := g;
                     base_index := 0;
                     mesh_active_faces := [(1, 2, 3)];
                     mesh_inactive_faces := [(0, 1, 2)] |}] |}).
Proof. vm_compute. reflexivity. Qed.

(** * The properties of the specification *)

(** ** C1: the one-triangle scenario *)

(** C1.  Whatever the six padding bytes are, parsing the 35-byte scenario
    buffer returns [True] with exactly one group: pattern A (['pattern1']),
    three vertices at the origin, no UVs, the single active face [(1, 2, 3)]
    and no inactive face; in the assembled model that face is the triangle
    [(0, 1, 2)] over the three vertices. *)
Theorem C1_scenario (p1 p2 p3 p4 p5 p6 : byte) :
  let d := scenario_buffer p1 p2 p3 p4 p5 p6 in
  len d = 35 /\
  parse (inr d)
  = Returned true
      (scanned d [scenario_group],
       Some {| model_vertices := [(0, 0, 0); (0, 0, 0); (0, 0, 0)];
               model_groups :=
                 [{| grp := scenario_group;
                     base_index := 0;
                     mesh_active_faces := [(0, 1, 2)];
                     mesh_inactive_faces := [] |}] |}).
Proof.
  split; vm_compute; reflexivity.
Qed.

(** ** C2: the number of faces of a group *)

(** C2.  Every group the scanner appends has a count byte [N] in [0, 42] and
    exactly [max 0 (N - 2)] face records, active and inactive together: the
    [k]-th record, with indices [(k+1, k+2, k+3)], is there for every
    [0 <= k < N - 2], so the [v3 > XX] test of line 159 drops none. *)
Theorem C2_face_count (d : bytes) (b : bool) (self : PCKParser) (g : group) :
  find_vertex_patterns (loaded d) = Returned b self ->
  In g (vertex_groups self) ->
  0 <= XX g <= 0x2A /\
  len (active_faces g) + len (inactive_faces g) = Z.max 0 (XX g - 2) /\
  forall k, 0 <= k < XX g - 2 ->
    exists f, In f (active_faces g ++ inactive_faces g) /\
              indices f = (k + 1, k + 2, k + 3).
Proof.
  intros Hrun Hin.
  destruct (returned_groups_state d b self Hrun) as [m [i St]].
  scan_invariant St. pose proof (inv_groups _ _ _ _ Inv) as G.
  rewrite Forall_forall in G. specialize (G g Hin).
  destruct G as [_ Hxx _ _ _ _ _ _ _ Ha Hi].
  split; [exact Hxx|]. rewrite Ha, Hi. split.
  - unfold len. rewrite <- Nat2Z.inj_add, filter_split_length.
    rewrite length_map, length_seq. lia.
  - intros k Hk.
    exists (strip_face d (faces_offset g + 10) (Z.to_nat k)). split.
    + apply filter_split_in. apply in_map. apply in_seq. lia.
    + unfold strip_face. cbn [indices]. rewrite Z2Nat.id by lia. reflexivity.
Qed.

(** C2 at the scenario buffer of C1 ([N = 3], one face). *)
Lemma C2_face_count_witness :
  0 <= XX scenario_group <= 0x2A /\
  len (active_faces scenario_group) + len (inactive_faces scenario_group)
  = Z.max 0 (XX scenario_group - 2) /\
  forall k, 0 <= k < XX scenario_group - 2 ->
    exists f, In f (active_faces scenario_group ++ inactive_faces scenario_group)
              /\ indices f = (k + 1, k + 2, k + 3).
Proof.
  apply (C2_face_count (scenario_buffer x00 x00 x00 x00 x00 x00) true
           (scanned (scenario_buffer x00 x00 x00 x00 x00 x00) [scenario_group])).
  - vm_compute. reflexivity.
  - simpl. left. reflexivity.
Defined.

(** ** C3: a truncated vertex block *)

Lemma parse_fail_at (d : bytes) (n : nat) (i : Z) (gs : list group)
  (msg : string) :
  loop_state d n = Some (i, gs) -> i < len d - 4 ->
  loop_body d i = Fail msg ->
  parse (inr d) = Returned false (rejected d gs msg, None).
Proof.
  intros H B LB. unfold parse, read_pck_file.
  rewrite (find_vertex_patterns_fail_at d n i gs msg H B LB). reflexivity.
Qed.

(** After a failing pass there is no further loop state. *)
Lemma no_state_after_fail (d : bytes) (n : nat) (i : Z) (gs : list group)
  (msg : string) :
  loop_state d n = Some (i, gs) -> loop_body d i = Fail msg ->
  forall m j hs, loop_state d m = Some (j, hs) -> (m <= n)%nat /\ j <= i.
Proof.
  intros H LB m j hs Hm.
  assert (St : loop_step d (i, gs) = None).
  { unfold loop_step. destruct (i <? len d - 4); [|reflexivity].
    rewrite LB. reflexivity. }
  pose proof (loop_state_unique_end d n m i j gs hs H St Hm) as L.
  split; [exact L|].
  replace n with (m + (n - m))%nat in H by lia.
  pose proof (loop_state_forward d (n - m) m i j gs hs Hm H). lia.
Qed.

(** A header the scanner never matches: offset 4 of [nested_header_buffer]
    holds the bytes of a pattern A header with [N = 42] and fewer than
    [6 * 42] bytes after it, yet the scan returns [True] with one group,
    because offset 4 lies inside the group found at offset 0 and the cursor
    jumps from 0 to 35. *)
Lemma nested_header_not_matched :
  vertex_header nested_header_buffer 4 pattern1 = Some (Some x2a) /\
  len nested_header_buffer < 4 + 4 + 6 * int_of_byte x2a /\
  exists g, find_vertex_patterns (loaded nested_header_buffer)
            = Returned true (scanned nested_header_buffer [g]) /\
            start g = 0 /\ cursor_after g = 35.
Proof.
  split; [reflexivity|]. split; [reflexivity|].
  eexists. split; [vm_compute; reflexivity|]. split; reflexivity.
Qed.

(** C3 as stated fails: a header in the buffer with too few bytes after it
    does not make the scan fail when the loop never tests its position.  In
    the five-byte buffer [00 EE 00 05 69] the bytes of a pattern A header
    with [N = 5] stand at offset 1 and nothing follows them; the loop's
    bound [i < len - 4] lets the body run at offset 0 only, and the scan and
    [parse] return [True] with no group.  In [nested_header_buffer] the
    header with [N = 42] at offset 4 has 27 bytes after it and lies inside
    the group found at offset 0, past which the cursor is set: the scan
    returns [True] with that group. *)
Lemma C3_counterexample :
  (let d := [x00; xee; x00; x05; x69] in
   slice d 1 (1 + 4) = prefix pattern1 ++ [x05; x69] /\
   vertex_header d 1 pattern1 = Some (Some x05) /\
   len d - (1 + 4) < 6 * int_of_byte x05 /\
   find_vertex_patterns (loaded d) = Returned true (scanned d []) /\
   parse (inr d)
   = Returned true
       (scanned d [], Some {| model_vertices := []; model_groups := [] |})) /\
  (let d := nested_header_buffer in
   slice d 4 (4 + 4) = prefix pattern1 ++ [x2a; x69] /\
   vertex_header d 4 pattern1 = Some (Some x2a) /\
   len d - (4 + 4) < 6 * int_of_byte x2a /\
   exists g model,
     find_vertex_patterns (loaded d) = Returned true (scanned d [g]) /\
     parse (inr d) = Returned true (scanned d [g], Some model)).
Proof.
  split; cbv zeta.
  - split; [reflexivity|]. split; [reflexivity|]. split; [reflexivity|].
    split; reflexivity.
  - split; [reflexivity|]. split; [reflexivity|]. split; [reflexivity|].
    do 2 eexists. split; vm_compute; reflexivity.
Qed.

(** C3, amended.  When the loop tests a position [i] (a loop state with
    [i < len - 4]) where a pattern's vertex header is a candidate match with
    count [N], and fewer than [6 * N] bytes follow the header, the scan
    returns [False] with the message for corrupted vertices; the group list
    holds the groups appended before and not this one, [parse] returns
    [False] without a model, and no loop state follows: the cursor of every
    loop state is at most [i]. *)
Theorem C3_truncated_vertices (d : bytes) (n : nat) (i : Z) (gs : list group)
  (p : pattern_info) (xxb : byte) :
  loop_state d n = Some (i, gs) -> i < len d - 4 ->
  In p patterns ->
  vertex_header d i p = Some (Some xxb) ->
  len d < i + 4 + 6 * int_of_byte xxb ->
  find_vertex_patterns (loaded d) = Returned false (rejected d gs msg_vertices)
  /\ parse (inr d) = Returned false (rejected d gs msg_vertices, None)
  /\ forall m j hs, loop_state d m = Some (j, hs) -> (m <= n)%nat /\ j <= i.
Proof.
  intros St B Hp VH Short.
  pose proof (loop_state_inv d n i gs St) as Inv.
  assert (Hi : 0 <= i < len d - 4) by (destruct Inv; lia).
  destruct (loop_body_at_header d i p xxb Hp Hi VH) as [LB _].
  assert (TP : try_pattern d i p = Fail msg_vertices).
  { unfold try_pattern. rewrite VH.
    destruct (len d <? i + 4 + int_of_byte xxb * 6) eqn:E; [reflexivity|].
    apply Z.ltb_ge in E. lia. }
  rewrite TP in LB.
  split; [exact (find_vertex_patterns_fail_at d n i gs _ St B LB)|].
  split; [exact (parse_fail_at d n i gs _ St B LB)|].
  exact (no_state_after_fail d n i gs _ St LB).
Qed.

(** C3 at one stray byte, [EE 00 05 69] and seven bytes: the header is at
    offset 1 with [N = 5], and the buffer ends in the second vertex. *)
Lemma C3_truncated_vertices_witness :
  let d := [xff] ++ [xee; x00; x05; x69] ++ repeat x00 7 in
  find_vertex_patterns (loaded d) = Returned false (rejected d [] msg_vertices)
  /\ parse (inr d) = Returned false (rejected d [] msg_vertices, None)
  /\ forall m j hs, loop_state d m = Some (j, hs) -> (m <= 1)%nat /\ j <= 1.
Proof.
  apply (C3_truncated_vertices ([xff] ++ [xee; x00; x05; x69] ++ repeat x00 7)
           1 1 [] pattern1 x05).
  - reflexivity.
  - reflexivity.
  - simpl. left. reflexivity.
  - reflexivity.
  - reflexivity.
Defined.

(** ** C4: a missing face signature *)

(** C4.  When the loop tests a position [i] where a pattern's vertex header
    is a candidate match, the vertex block fits in the buffer, the UV block is
    absent or fits too, leaving the cursor of the search at [pos], and the
    pattern's face signature (face prefix, the same count byte, [0x6A]) occurs
    nowhere from [pos] on, then [parse] returns [False] with the message
    "Face pattern not found.": the group is not appended and no model is
    produced. *)
Theorem C4_face_signature_missing (d : bytes) (n : nat) (i : Z)
  (gs : list group) (p : pattern_info) (xxb : byte)
  (us : list uv) (span : option (Z * Z)) (pos : Z) :
  loop_state d n = Some (i, gs) -> i < len d - 4 ->
  In p patterns ->
  vertex_header d i p = Some (Some xxb) ->
  i + 4 + int_of_byte xxb * 6 <= len d ->
  read_uv_block d p xxb (i + 4 + int_of_byte xxb * 6) = inr (us, span, pos) ->
  (forall k, pos <= k -> slice d k (k + 4) <> face_signature p xxb) ->
  find_vertex_patterns (loaded d) = Returned false (rejected d gs msg_no_faces)
  /\ parse (inr d) = Returned false (rejected d gs msg_no_faces, None).
Proof.
  intros St B Hp VH Fit UV Absent.
  pose proof (loop_state_inv d n i gs St) as Inv.
  assert (Hi : 0 <= i < len d - 4) by (destruct Inv; lia).
  destruct (loop_body_at_header d i p xxb Hp Hi VH) as [LB _].
  pose proof (int_of_byte_range xxb) as R.
  assert (TP : try_pattern d i p = Fail msg_no_faces).
  { unfold try_pattern. rewrite VH.
    destruct (len d <? i + 4 + int_of_byte xxb * 6) eqn:E;
      [apply Z.ltb_lt in E; lia|].
    rewrite range_multiple by lia.
    destruct (read_vertices_some d (i + 4) (Z.to_nat (int_of_byte xxb)) 0)
      as [vs [-> L]]; try lia.
    rewrite UV. apply read_uv_block_inr in UV; [|lia].
    unfold read_face_block. rewrite find_absent; [reflexivity|lia|].
    rewrite (faces_prefix_len p xxb Hp). intros k Hk. apply Absent. lia. }
  rewrite TP in LB.
  split; [exact (find_vertex_patterns_fail_at d n i gs _ St B LB)|].
  exact (parse_fail_at d n i gs _ St B LB).
Qed.

(** C4 at [EE 00 01 69], one vertex, three bytes and no face signature. *)
Lemma C4_face_signature_missing_witness :
  let d := [xee; x00; x01; x69] ++ repeat x00 6 ++ [x9a; x00; x02] in
  find_vertex_patterns (loaded d) = Returned false (rejected d [] msg_no_faces)
  /\ parse (inr d) = Returned false (rejected d [] msg_no_faces, None).
Proof.
  apply (C4_face_signature_missing
           ([xee; x00; x01; x69] ++ repeat x00 6 ++ [x9a; x00; x02])
           0 0 [] pattern1 x01 [] None 10).
  - reflexivity.
  - reflexivity.
  - simpl. left. reflexivity.
  - reflexivity.
  - vm_compute. discriminate.
  - reflexivity.
  - intros k Hk E.
    apply (f_equal (@List.length byte)) in E. unfold slice in E.
    rewrite length_firstn, length_skipn in E.
    change (List.length ([xee; x00; x01; x69] ++ repeat x00 6
                         ++ [x9a; x00; x02])) with 13%nat in E.
    change (List.length (face_signature pattern1 x01)) with 4%nat in E. lia.
Defined.

(** ** C5: the range of the count byte *)

(** Later loop states keep the groups of earlier ones and add groups that
    start at or after the earlier cursor. *)
Lemma loop_state_extends (d : bytes) (k n : nat) (i j : Z)
  (gs hs : list group) :
  loop_state d n = Some (i, gs) -> loop_state d (n + k) = Some (j, hs) ->
  i + Z.of_nat k <= j /\
  exists rest, hs = gs ++ rest /\ Forall (fun g => i <= start g) rest.
Proof.
  revert j hs. induction k as [|k IH]; intros j hs Hn Hk.
  - rewrite Nat.add_0_r in Hk. rewrite Hn in Hk. inversion Hk. subst.
    split; [lia|]. exists []. rewrite app_nil_r. auto.
  - replace (n + S k)%nat with (S (n + k)) in Hk by lia.
    simpl in Hk.
    destruct (loop_state d (n + k)) as [[i0 gs0]|] eqn:S0; [|discriminate].
    destruct (IH i0 gs0 Hn eq_refl) as [L [rest [E F]]].
    pose proof (loop_state_inv d _ _ _ S0) as Inv0.
    unfold loop_step in Hk.
    destruct (i0 <? len d - 4) eqn:B; [|discriminate]. apply Z.ltb_lt in B.
    assert (Hi0 : 0 <= i0 < len d - 4) by (destruct Inv0; lia).
    pose proof (loop_body_cases d i0 Hi0) as C.
    destruct (loop_body d i0) as [|g next|msg|]; try discriminate.
    + inversion Hk. subst. split; [lia|]. exists rest. auto.
    + inversion Hk. subst j hs. destruct C as [C1 [C2 C3]].
      pose proof (group_ok_cursor d g C1) as GC.
      split; [lia|]. exists (rest ++ [g]). rewrite E, app_assoc.
      split; [reflexivity|]. apply Forall_app. split; [exact F|].
      constructor; [lia | constructor].
Qed.

(** The scan ends at a loop state that no iteration follows, and returns that
    state's groups: at the loop's bound with [True], or where the body fails,
    with [False] and the body's message. *)
Lemma scan_end_state (d : bytes) :
  exists b self m j,
    find_vertex_patterns (loaded d) = Returned b self /\
    loop_state d m = Some (j, vertex_groups self) /\
    loop_step d (j, vertex_groups self) = None /\
    (b = true -> len d - 4 <= j) /\
    (b = false ->
     j < len d - 4 /\ loop_body d j = Fail (error_message self)).
Proof.
  destruct (find_vertex_patterns_run d) as [m [j [hs [St R]]]].
  destruct R as [[B E]|[B [msg [LB E]]]].
  - exists true, (scanned d hs), m, j. cbn [vertex_groups scanned].
    split; [exact E|]. split; [exact St|].
    split; [|split; [intros _; lia | discriminate]].
    unfold loop_step.
    destruct (j <? len d - 4) eqn:G; [apply Z.ltb_lt in G; lia | reflexivity].
  - exists false, (rejected d hs msg), m, j.
    cbn [vertex_groups error_message rejected].
    split; [exact E|]. split; [exact St|].
    split; [|split; [discriminate | auto]].
    unfold loop_step. destruct (j <? len d - 4); [|reflexivity].
    rewrite LB. reflexivity.
Qed.

(** C5.  At a position the loop tests, where the two bytes at the cursor are
    a pattern's vertex prefix and the fourth byte is [0x69], the header is a
    candidate match exactly when the count byte [N] lies in [0, 0x2A].  For a
    larger [N], [0x2B] in particular, no pattern matches and the scanner goes
    on one byte further: when the scan is at this position with the groups
    [gs], its next loop state is the cursor [i + 1] with the same groups, and
    the scan itself returns the groups of a loop state reached from there,
    with its cursor at [i + 1] or later: a group list that starts with [gs]
    and goes on with groups that start at [i + 1] or later.  It returns
    [True] with the cursor at the loop's bound, or [False] because the body
    failed at that later position, not at this one. *)
Theorem C5_count_byte_range (d : bytes) (i : Z) (p : pattern_info) (xxb : byte)
  (gs : list group) (fuel : nat) :
  In p patterns -> 0 <= i < len d - 4 ->
  slice d i (i + 2) = prefix p ->
  getitem d (i + 2) = Some xxb ->
  getitem d (i + 3) = Some x69 ->
  (vertex_header d i p = Some (Some xxb) <-> 0 <= int_of_byte xxb <= 0x2A) /\
  (0x2A < int_of_byte xxb ->
     loop_body d i = Continue /\
     loop_step d (i, gs) = Some (i + 1, gs) /\
     scan_loop d (S fuel) i gs = scan_loop d fuel (i + 1) gs /\
     forall n, loop_state d n = Some (i, gs) ->
       loop_state d (S n) = Some (i + 1, gs) /\
       exists b self rest m j,
         find_vertex_patterns (loaded d) = Returned b self /\
         vertex_groups self = gs ++ rest /\
         Forall (fun g => i + 1 <= start g) rest /\
         (S n <= m)%nat /\
         loop_state d m = Some (j, vertex_groups self) /\
         i + 1 <= j /\
         (b = true -> len d - 4 <= j) /\
         (b = false ->
          j < len d - 4 /\ loop_body d j = Fail (error_message self))).
Proof.
  intros Hp Hi Sl G2 G3. pose proof (int_of_byte_range xxb) as R. split.
  - rewrite vertex_header_some. split.
    + intros [_ [_ [H _]]]. lia.
    + intros H. repeat split; auto; lia.
  - intros Big.
    assert (LB : loop_body d i = Continue).
    { apply loop_body_no_header; [exact Hi|].
      intros q yyb Hq VH. apply vertex_header_some in VH.
      destruct VH as [Sq [Gq [Rq _]]].
      assert (q = p).
      { rewrite Sl in Sq. destruct Hp as [<-|[<-|[]]];
          destruct Hq as [<-|[<-|[]]]; try reflexivity; discriminate. }
      subst q. rewrite G2 in Gq. inversion Gq. subst yyb. lia. }
    split; [exact LB|].
    assert (B : (i <? len d - 4) = true) by (apply Z.ltb_lt; lia).
    assert (LS : loop_step d (i, gs) = Some (i + 1, gs))
      by (unfold loop_step; rewrite B, LB; reflexivity).
    split; [exact LS|].
    split; [simpl; rewrite B, LB; reflexivity|].
    intros n St.
    assert (St1 : loop_state d (S n) = Some (i + 1, gs))
      by (cbn [loop_state]; rewrite St; exact LS).
    split; [exact St1|].
    destruct (scan_end_state d)
      as [b [self [m [j [Run [Stm [End [Tr Fl]]]]]]]].
    pose proof (loop_state_unique_end d m (S n) j (i + 1) _ gs Stm End St1)
      as Le.
    assert (Stm' : loop_state d (S n + (m - S n))
                   = Some (j, vertex_groups self))
      by (replace (S n + (m - S n))%nat with m by lia; exact Stm).
    destruct (loop_state_extends d (m - S n) (S n) (i + 1) j gs _ St1 Stm')
      as [Lj [rest [E F]]].
    exists b, self, rest, m, j.
    split; [exact Run|]. split; [exact E|]. split; [exact F|].
    split; [exact Le|]. split; [exact Stm|]. split; [lia|].
    split; [exact Tr | exact Fl].
Qed.

(** After [EE 00 2B 69] the scan goes on and finds the group of the
    one-triangle scenario that follows, at offset 4. *)
Example count_2b_then_group :
  exists g,
    find_vertex_patterns
      (loaded ([xee; x00; x2b; x69] ++ scenario_buffer x00 x00 x00 x00 x00 x00))
    = Returned true
        (scanned ([xee; x00; x2b; x69]
                  ++ scenario_buffer x00 x00 x00 x00 x00 x00) [g])
    /\ start g = 4 /\ XX g = 3.
Proof.
  eexists. split; [vm_compute; reflexivity|]. split; reflexivity.
Qed.

(** C5 at [EE 00 2B 69] followed by the one-triangle scenario: count byte
    [0x2B] at offset 0, the scan moves on. *)
Lemma C5_count_byte_range_witness :
  let d := [xee; x00; x2b; x69] ++ scenario_buffer x00 x00 x00 x00 x00 x00 in
  (vertex_header d 0 pattern1 = Some (Some x2b)
   <-> 0 <= int_of_byte x2b <= 0x2A) /\
  (0x2A < int_of_byte x2b ->
     loop_body d 0 = Continue /\
     loop_step d (0, []) = Some (0 + 1, []) /\
     scan_loop d 1 0 [] = scan_loop d 0 (0 + 1) [] /\
     forall n, loop_state d n = Some (0, []) ->
       loop_state d (S n) = Some (0 + 1, []) /\
       exists b self rest m j,
         find_vertex_patterns (loaded d) = Returned b self /\
         vertex_groups self = [] ++ rest /\
         Forall (fun g => 0 + 1 <= start g) rest /\
         (S n <= m)%nat /\
         loop_state d m = Some (j, vertex_groups self) /\
         0 + 1 <= j /\
         (b = true -> len d - 4 <= j) /\
         (b = false ->
          j < len d - 4 /\ loop_body d j = Fail (error_message self))).
Proof.
  apply (C5_count_byte_range
           ([xee; x00; x2b; x69] ++ scenario_buffer x00 x00 x00 x00 x00 x00)
           0 pattern1 x2b [] 0).
  - simpl. left. reflexivity.
  - vm_compute. split; [discriminate | reflexivity].
  - reflexivity.
  - reflexivity.
  - reflexivity.
Defined.

(** ** C6: groups in offset order *)

(** Groups come out in discovery order with strictly increasing start
    offsets, and a later group never starts before the end of an earlier
    group's face signature; when the earlier group has [XX >= 2] the later one
    starts after its padding and face records as well. *)
Lemma groups_in_offset_order (d : bytes) (b : bool) (self : PCKParser)
  (pre post : list group) (g1 g2 : group) :
  find_vertex_patterns (loaded d) = Returned b self ->
  vertex_groups self = pre ++ g1 :: post -> In g2 post ->
  start g1 < start g2 /\
  faces_offset g1 + 4 <= start g2 /\
  (2 <= XX g1 -> faces_offset g1 + 4 + 6 + 3 * (XX g1 - 2) <= start g2).
Proof.
  intros Hrun Hsplit Hin.
  destruct (returned_groups_state d b self Hrun) as [m [i St]].
  scan_invariant St. destruct Inv as [_ _ G _ A _].
  rewrite Hsplit in A, G.
  pose proof (apart_app pre g1 post g2 A Hin) as Ap.
  rewrite Forall_forall in G.
  assert (G1 : group_ok d g1) by (apply G; apply in_or_app; simpl; auto).
  pose proof (group_ok_cursor d g1 G1) as GC.
  pose proof (ok_faces_end d g1 G1) as FE.
  unfold cursor_after in *. repeat split; lia.
Qed.

(** C6, at the failing input.  The scan of [overlap_buffer] returns two
    groups.  The first has its face signature at offsets 4-7, so its six
    padding bytes are offsets 8-13; with [XX = 0] the cursor is set to
    [faces_start + (0 - 2) * 3 = 8], and the second group starts at offset 8,
    on the first padding byte of the first group. *)
Theorem C6_padding_overlap :
  exists g1 g2,
    find_vertex_patterns (loaded overlap_buffer)
    = Returned true (scanned overlap_buffer [g1; g2]) /\
    XX g1 = 0 /\ faces_offset g1 = 4 /\ cursor_after g1 = 8 /\
    start g2 = 8 /\
    faces_offset g1 + 4 <= start g2 < faces_offset g1 + 4 + 6.
Proof.
  do 2 eexists. split; [vm_compute; reflexivity|].
  cbn. repeat split; try reflexivity; discriminate.
Qed.

(** ** C7: which offsets are tested *)

(** The loop's bound is [i < len - 4]: in the four-byte buffer
    [EE 00 00 69] offset 0 holds the bytes of a header, three bytes remain
    past it, the loop body never runs and the scan returns [True] with no
    group. *)
Lemma last_four_bytes_untested :
  vertex_header [xee; x00; x00; x69] 0 pattern1 = Some (Some x00) /\
  ~ tested [xee; x00; x00; x69] 0 /\
  find_vertex_patterns (loaded [xee; x00; x00; x69])
  = Returned true (scanned [xee; x00; x00; x69] []).
Proof.
  split; [reflexivity|]. split; [|reflexivity].
  intros [n [gs [_ B]]]. revert B. apply Z.lt_irrefl.
Qed.

(** C7 as stated fails.  The scan of [nested_header_buffer] returns [True];
    its offset 4 has 31 bytes from it to the end (30 past it) and is never
    tested: the loop runs at offset 0, appends the group found there and
    sets the cursor to 35, where it ends. *)
Lemma C7_counterexample :
  (exists g, find_vertex_patterns (loaded nested_header_buffer)
             = Returned true (scanned nested_header_buffer [g])) /\
  0 <= 4 /\ 4 + 5 <= len nested_header_buffer /\
  ~ tested nested_header_buffer 4.
Proof.
  split; [eexists; vm_compute; reflexivity|].
  split; [discriminate|]. split; [discriminate|].
  intros [n [gs [H _]]].
  destruct n as [|n]; [discriminate|].
  assert (S1 : exists g, loop_state nested_header_buffer 1 = Some (35, [g]))
    by (eexists; vm_compute; reflexivity).
  destruct S1 as [g S1].
  pose proof (loop_state_forward nested_header_buffer n 1 4 35 gs [g] S1 H).
  lia.
Qed.

(** The cursor grows from one loop state to the next. *)
Lemma loop_state_increasing (d : bytes) (m m' : nat) (j j' : Z)
  (hs hs' : list group) :
  (m < m')%nat ->
  loop_state d m = Some (j, hs) -> loop_state d m' = Some (j', hs') ->
  j < j'.
Proof.
  intros L Hm Hm'.
  replace m' with (m + (m' - m))%nat in Hm' by lia.
  pose proof (loop_state_forward d (m' - m) m j' j hs' hs Hm Hm'). lia.
Qed.

(** Every group of a loop state was appended by the iteration at its start,
    which set the cursor past its face block. *)
Lemma loop_state_group_step (d : bytes) (n : nat) (i : Z) (gs : list group) :
  loop_state d n = Some (i, gs) ->
  forall g, In g gs ->
    exists m hs, loop_state d m = Some (start g, hs) /\
                 loop_state d (S m) = Some (cursor_after g, hs ++ [g]).
Proof.
  revert i gs. induction n as [|n IH]; intros i gs H g Hg.
  - inversion H. subst. destruct Hg.
  - pose proof H as H'. simpl in H.
    destruct (loop_state d n) as [[i0 gs0]|] eqn:S0; [|discriminate].
    pose proof (loop_state_inv d n i0 gs0 S0) as Inv.
    unfold loop_step in H.
    destruct (i0 <? len d - 4) eqn:B; [|discriminate]. apply Z.ltb_lt in B.
    assert (Hi0 : 0 <= i0 < len d - 4) by (destruct Inv; lia).
    pose proof (loop_body_cases d i0 Hi0) as C.
    destruct (loop_body d i0) as [|g0 next|msg|] eqn:LB; try discriminate.
    + inversion H. subst i gs. exact (IH i0 gs0 eq_refl g Hg).
    + inversion H. subst i gs. destruct C as [_ [C2 C3]].
      apply in_app_or in Hg. destruct Hg as [Hg|[<-|[]]].
      * exact (IH i0 gs0 eq_refl g Hg).
      * exists n, gs0. rewrite C2, <- C3. split; [exact S0 | exact H'].
Qed.

(** C7, amended.  In a scan that returns [True], every offset [k] with
    [k < len - 4] (at least four bytes past it) is tested, except the offsets
    strictly inside an appended group (after its start and before the cursor
    set past its face block); and the loop is left only at a cursor [i] with
    [len - 4 <= i] (fewer than four bytes past it).  The offsets are tested
    in increasing order: the cursor grows from each loop state to the next.
    The cursor jumps over the inside of an appended group: the group's start
    is tested, the next cursor is the position past its face block, and no
    offset strictly between the two is tested. *)
Theorem C7_offsets_tested (d : bytes) (self : PCKParser) (k : Z) :
  find_vertex_patterns (loaded d) = Returned true self ->
  0 <= k -> k + 5 <= len d ->
  (tested d k \/
   exists g, In g (vertex_groups self) /\ start g < k < cursor_after g) /\
  (exists n i,
     loop_state d n = Some (i, vertex_groups self) /\ len d - 4 <= i) /\
  (forall m m' j j' hs hs',
     (m < m')%nat ->
     loop_state d m = Some (j, hs) -> loop_state d m' = Some (j', hs') ->
     j < j') /\
  (forall g, In g (vertex_groups self) ->
     (exists m hs, loop_state d m = Some (start g, hs) /\
                   loop_state d (S m) = Some (cursor_after g, hs ++ [g])) /\
     forall j, start g < j < cursor_after g -> ~ tested d j).
Proof.
  intros Hrun Hk0 Hk.
  destruct (returned_true_state d self Hrun) as [_ [m [i [St B]]]].
  split; [|split; [exists m, i; auto|split]].
  - scan_invariant St. destruct Inv as [_ _ _ _ _ Cov].
    destruct (Cov k) as [[m' [gs' [_ T]]]|Inside]; [lia| |].
    + left. exists m', gs'. split; [exact T | lia].
    + right. exact Inside.
  - intros m0 m1 j j' hs hs'. apply loop_state_increasing.
  - intros g Hg.
    destruct (loop_state_group_step d m i _ St g Hg) as [m0 [hs [S0 S1]]].
    split; [exists m0, hs; auto|].
    intros j Hj [n [gs [Sn _]]].
    destruct (le_lt_dec n m0) as [L|L].
    + destruct (Nat.eq_dec n m0) as [->|Ne].
      * rewrite S0 in Sn. inversion Sn. lia.
      * assert (L' : (n < m0)%nat) by lia.
        pose proof (loop_state_increasing d n m0 _ _ _ _ L' Sn S0). lia.
    + destruct (Nat.eq_dec n (S m0)) as [->|Ne].
      * rewrite S1 in Sn. inversion Sn. lia.
      * assert (L' : (S m0 < n)%nat) by lia.
        pose proof (loop_state_increasing d (S m0) n _ _ _ _ L' S1 Sn). lia.
Qed.

(** C7 at the scenario buffer of C1: offset 10 lies inside the group. *)
Lemma C7_offsets_tested_witness :
  let d := scenario_buffer x00 x00 x00 x00 x00 x00 in
  (tested d 10 \/
   exists g, In g [scenario_group] /\ start g < 10 < cursor_after g) /\
  (exists n i,
     loop_state d n = Some (i, [scenario_group]) /\ len d - 4 <= i) /\
  (forall m m' j j' hs hs',
     (m < m')%nat ->
     loop_state d m = Some (j, hs) -> loop_state d m' = Some (j', hs') ->
     j < j') /\
  (forall g, In g [scenario_group] ->
     (exists m hs, loop_state d m = Some (start g, hs) /\
                   loop_state d (S m) = Some (cursor_after g, hs ++ [g])) /\
     forall j, start g < j < cursor_after g -> ~ tested d j).
Proof.
  apply (C7_offsets_tested (scenario_buffer x00 x00 x00 x00 x00 x00)
           (scanned (scenario_buffer x00 x00 x00 x00 x00 x00) [scenario_group])
           10).
  - vm_compute. reflexivity.
  - discriminate.
  - discriminate.
Defined.

(** ** C8: the index remapper *)

Lemma group_ok_faces_local (d : bytes) (g : group) :
  group_ok d g -> faces_local g.
Proof.
  intros [_ Hxx Hv _ _ _ _ _ _ Ha Hi] f Hf.
  assert (S : In f (map (strip_face d (faces_offset g + 10))
                        (seq 0 (Z.to_nat (XX g - 2))))).
  { apply in_app_or in Hf. destruct Hf as [Hf|Hf].
    - rewrite Ha in Hf. apply filter_In in Hf. tauto.
    - rewrite Hi in Hf. apply filter_In in Hf. tauto. }
  apply in_map_iff in S. destruct S as [k [<- Hk]]. apply in_seq in Hk.
  exists (Z.of_nat k). unfold strip_face. cbn [indices].
  repeat split; try lia.
Qed.

Lemma remap_faces_keeps_all (base n : Z) (fs : list face) :
  (forall f, In f fs -> all_in_range n (adjusted_indices base f) = true) ->
  forall acc,
    remap_faces base n fs acc = acc ++ map (adjusted_indices base) fs.
Proof.
  induction fs as [|f fs IH]; intros Hall acc; simpl.
  - rewrite app_nil_r. reflexivity.
  - rewrite (Hall f (or_introl eq_refl)).
    rewrite IH by (intros; apply Hall; simpl; auto).
    rewrite <- app_assoc. reflexivity.
Qed.

Lemma adjusted_within (base : Z) (g : group) (f : face) :
  faces_local g -> In f (active_faces g ++ inactive_faces g) ->
  within base (base + len (vertices g)) (adjusted_indices base f).
Proof.
  intros L Hf. destruct (L f Hf) as [k [K0 [K1 E]]].
  unfold adjusted_indices. rewrite E. unfold within. lia.
Qed.

Lemma within_all_in_range (base hi : Z) (t : triangle) :
  0 <= base -> within base hi t -> all_in_range hi t = true.
Proof.
  destruct t as [[a b] c]. unfold within, all_in_range.
  intros B [[A1 A2] [[B1 B2] [C1 C2]]].
  rewrite !andb_true_iff, !Z.leb_le, !Z.ltb_lt. lia.
Qed.

Lemma remap_groups_spec (gs : list group) :
  Forall faces_local gs ->
  forall verts mgs final,
    remap_groups gs verts = (mgs, final) ->
    final = verts ++ flat_map vertices gs /\
    map grp mgs = gs /\
    remapped (len verts) mgs.
Proof.
  induction gs as [|g gs IH]; intros Hl verts mgs final H; simpl in H.
  - inversion H. subst. rewrite app_nil_r. simpl. auto.
  - inversion Hl as [|? ? Lg Lgs]; subst.
    destruct (remap_groups gs (verts ++ vertices g)) as [mgs' final'] eqn:R.
    inversion H. subst mgs final. clear H.
    destruct (IH Lgs _ _ _ R) as [E1 [E2 E3]].
    split; [rewrite E1; simpl; rewrite app_assoc; reflexivity|].
    split; [simpl; rewrite E2; reflexivity|].
    assert (RA : forall fs,
               (forall f, In f fs ->
                          In f (active_faces g ++ inactive_faces g)) ->
               remap_faces (len verts) (len (verts ++ vertices g)) fs []
               = map (adjusted_indices (len verts)) fs).
    { intros fs Hfs. rewrite remap_faces_keeps_all; [reflexivity|].
      intros f Hf. rewrite len_app.
      apply (within_all_in_range (len verts)); [apply len_nonneg|].
      apply adjusted_within; auto. }
    cbn [remapped grp base_index mesh_active_faces mesh_inactive_faces].
    rewrite !RA by (intros f Hf; apply in_or_app; auto).
    rewrite len_app in E3.
    repeat split; auto.
    rewrite <- map_app. apply Forall_forall. intros t Ht.
    apply in_map_iff in Ht. destruct Ht as [f [<- Hf]].
    apply adjusted_within; auto.
Qed.

Lemma remapped_in_range (hi : Z) (mgs : list mesh_group) :
  forall base, 0 <= base ->
    remapped base mgs ->
    base + len (flat_map (fun mg => vertices (grp mg)) mgs) <= hi ->
    Forall (fun mg => Forall (fun t => all_in_range hi t = true)
                        (mesh_active_faces mg ++ mesh_inactive_faces mg)) mgs.
Proof.
  induction mgs as [|mg mgs IH]; intros base B R H; [constructor|].
  simpl in R. destruct R as [_ [_ [_ [W R]]]].
  simpl in H. rewrite len_app in H.
  pose proof (len_nonneg (vertices (grp mg))) as L1.
  pose proof (len_nonneg (flat_map (fun mg => vertices (grp mg)) mgs)) as L2.
  constructor.
  - eapply Forall_impl; [|exact W]. intros [[a b] c] Wt.
    apply (within_all_in_range base); [exact B|].
    unfold within in *. lia.
  - apply (IH (base + len (vertices (grp mg)))); auto; lia.
Qed.

Lemma flat_map_grp (mgs : list mesh_group) :
  flat_map vertices (map grp mgs) = flat_map (fun mg => vertices (grp mg)) mgs.
Proof.
  induction mgs as [|mg mgs IH]; simpl; [reflexivity|].
  rewrite IH. reflexivity.
Qed.

(** A list and its image under [f] are related pointwise by any relation
    that holds between [x] and [f x]. *)
Lemma Forall2_map_graph {A B : Type} (R : A -> B -> Prop) (f : A -> B)
  (l : list A) :
  (forall x, R x (f x)) -> Forall2 R l (map f l).
Proof.
  intros H. induction l as [|x l IH]; simpl; constructor; auto.
Qed.

(** The triangle of line 219 is its face translated by [local - 1 + base],
    index by index. *)
Ltac translation_formula :=
  unfold translates, adjusted_indices;
  match goal with
  | |- context [indices ?f] => destruct (indices f) as [[? ?] ?]
  end;
  repeat split; reflexivity.

Lemma remapped_within (hi : Z) (mgs : list mesh_group) :
  forall base, 0 <= base ->
    remapped base mgs ->
    base + len (flat_map (fun mg => vertices (grp mg)) mgs) <= hi ->
    Forall (fun mg => Forall (within 0 hi)
                        (mesh_active_faces mg ++ mesh_inactive_faces mg)) mgs.
Proof.
  induction mgs as [|mg mgs IH]; intros base B R H; [constructor|].
  simpl in R. destruct R as [_ [_ [_ [W R]]]].
  simpl in H. rewrite len_app in H.
  pose proof (len_nonneg (vertices (grp mg))) as L1.
  pose proof (len_nonneg (flat_map (fun mg => vertices (grp mg)) mgs)) as L2.
  constructor.
  - eapply Forall_impl; [|exact W]. intros [[a b] c] Wt.
    unfold within in *. lia.
  - apply (IH (base + len (vertices (grp mg)))); auto; lia.
Qed.

(** [parse] always returns: nothing is raised and the loop's fuel suffices. *)
Lemma parse_total (file : string + bytes) :
  exists b r, parse file = Returned b r.
Proof.
  unfold parse. destruct file as [e|d]; simpl; [eauto|].
  destruct (find_vertex_patterns_total d) as [b [self E]].
  rewrite E. destruct b; [|eauto].
  destruct (remap_groups (vertex_groups self) []) as [mgs verts]. eauto.
Qed.

(** C8.  For every list of groups the scanner returns, the remapper does
    not raise and does not fail: [parse] returns [True] with a model.  Its
    global vertex array is the concatenation of the groups' vertices in scan
    order, and for each group, with [base] the number of global vertices
    before it, the global triangles are the group's faces, all of them and
    in order, with every index translated by [local - 1 + base]: a face with
    the local indices [(a, b, c)] gives the triangle
    [(a - 1 + base, b - 1 + base, c - 1 + base)].  Every translated index is
    at least 0 (indeed at least [base]) and less than the length of the
    global vertex array, so the remapper's range test never drops a face. *)
Theorem C8_remap (d : bytes) (self : PCKParser) :
  find_vertex_patterns (loaded d) = Returned true self ->
  exists model,
    parse (inr d) = Returned true (self, Some model) /\
    model_vertices model = flat_map vertices (vertex_groups self) /\
    map grp (model_groups model) = vertex_groups self /\
    remapped 0 (model_groups model) /\
    Forall (fun mg =>
              Forall (fun t => all_in_range (len (model_vertices model)) t = true)
                     (mesh_active_faces mg ++ mesh_inactive_faces mg))
           (model_groups model) /\
    translated 0 (model_groups model) /\
    Forall (fun mg =>
              Forall (within 0 (len (model_vertices model)))
                     (mesh_active_faces mg ++ mesh_inactive_faces mg))
           (model_groups model).
Proof.
  intros H. unfold parse, read_pck_file. rewrite H.
  destruct (returned_groups_state d true self H) as [m [i St]].
  set (gs := vertex_groups self) in *.
  destruct (remap_groups gs []) as [mgs verts] eqn:RG.
  eexists. split; [reflexivity|].
  cbn [model_vertices model_groups].
  scan_invariant St. pose proof (inv_groups _ _ _ _ Inv) as G.
  assert (L : Forall faces_local gs).
  { eapply Forall_impl; [|exact G]. intros g. apply group_ok_faces_local. }
  destruct (remap_groups_spec gs L [] mgs verts RG) as [E1 [E2 E3]].
  simpl in E1. change (len []) with 0 in E3.
  assert (Hi : 0 + len (flat_map (fun mg => vertices (grp mg)) mgs)
               <= len verts)
    by (rewrite E1, <- E2, flat_map_grp; lia).
  split; [exact E1|]. split; [exact E2|]. split; [exact E3|].
  split; [apply (remapped_in_range (len verts) mgs 0); auto; lia|].
  split; [|apply (remapped_within (len verts) mgs 0); auto; lia].
  clear - E3. revert E3. generalize 0.
  induction mgs as [|mg mgs IH]; intros base R; [exact I|].
  cbn [remapped] in R. destruct R as [R1 [R2 [R3 [_ R5]]]].
  cbn [translated]. rewrite R2, R3.
  split; [exact R1|].
  split; [apply Forall2_map_graph; intros f; translation_formula|].
  split; [apply Forall2_map_graph; intros f; translation_formula|].
  apply IH. exact R5.
Qed.

(** The second group of [two_group_buffer] comes after three global
    vertices: its face with the local indices [(1, 2, 3)] is the global
    triangle [(3, 4, 5)]. *)
Example second_group_translated :
  exists self mg1 mg2 verts,
    parse (inr two_group_buffer)
    = Returned true
        (self, Some {| model_vertices := verts; model_groups := [mg1; mg2] |})
    /\ base_index mg2 = 3
    /\ map indices (active_faces (grp mg2) ++ inactive_faces (grp mg2))
       = [(1, 2, 3)]
    /\ mesh_active_faces mg2 ++ mesh_inactive_faces mg2 = [(3, 4, 5)].
Proof.
  do 4 eexists. split; [vm_compute; reflexivity|].
  split; [reflexivity|]. split; reflexivity.
Qed.

(** C8 at the scenario buffer of C1. *)
Lemma C8_remap_witness :
  let d := scenario_buffer x00 x00 x00 x00 x00 x00 in
  exists model,
    parse (inr d) = Returned true (scanned d [scenario_group], Some model) /\
    model_vertices model = flat_map vertices [scenario_group] /\
    map grp (model_groups model) = [scenario_group] /\
    remapped 0 (model_groups model) /\
    Forall (fun mg =>
              Forall (fun t => all_in_range (len (model_vertices model)) t = true)
                     (mesh_active_faces mg ++ mesh_inactive_faces mg))
           (model_groups model) /\
    translated 0 (model_groups model) /\
    Forall (fun mg =>
              Forall (within 0 (len (model_vertices model)))
                     (mesh_active_faces mg ++ mesh_inactive_faces mg))
           (model_groups model).
Proof.
  apply (C8_remap (scenario_buffer x00 x00 x00 x00 x00 x00)
           (scanned (scenario_buffer x00 x00 x00 x00 x00 x00) [scenario_group])).
  vm_compute. reflexivity.
Defined.

(** ** C9: as many [vt] lines as [v] lines *)

Section ExportProperties.

Variable str_float32 : bool -> Z -> string.

Lemma prefix_empty (s : string) : String.prefix EmptyString s = true.
Proof. destruct s; reflexivity. Qed.

Lemma v_line_kind (scale : bool) (v : vertex) :
  is_v_line (v_line str_float32 scale v) = true /\
  is_vt_line (v_line str_float32 scale v) = false.
Proof.
  destruct v as [[x y] z]. unfold is_v_line, is_vt_line, v_line.
  split; cbn; [apply prefix_empty | reflexivity].
Qed.

Lemma vt_line_kind (p : uv) :
  is_v_line (vt_line p) = false /\ is_vt_line (vt_line p) = true.
Proof.
  destruct p as [u v]. unfold is_v_line, is_vt_line, vt_line.
  split; cbn; [reflexivity | apply prefix_empty].
Qed.

Lemma f_line_kind (t : triangle) :
  is_v_line (f_line t) = false /\ is_vt_line (f_line t) = false.
Proof.
  destruct t as [[a b] c]. unfold is_v_line, is_vt_line, f_line.
  split; cbn; reflexivity.
Qed.

Lemma filter_map_all {A B} (f : B -> bool) (g : A -> B) (l : list A) :
  (forall x, f (g x) = true) -> filter f (map g l) = map g l.
Proof.
  intros H. induction l as [|x l IH]; simpl; [reflexivity|].
  rewrite H, IH. reflexivity.
Qed.

Lemma filter_map_none {A B} (f : B -> bool) (g : A -> B) (l : list A) :
  (forall x, f (g x) = false) -> filter f (map g l) = [].
Proof.
  intros H. induction l as [|x l IH]; simpl; [reflexivity|].
  rewrite H, IH. reflexivity.
Qed.

Lemma filter_f_lines (f : string -> bool) (groups : list mesh_group) :
  (forall t, f (f_line t) = false) ->
  filter f (flat_map (fun g => map f_line (mesh_active_faces g)) groups) = [].
Proof.
  intros H. induction groups as [|g gs IH]; simpl; [reflexivity|].
  rewrite filter_app, IH, filter_map_none by exact H. reflexivity.
Qed.

Lemma gather_uvs_flat (gs : list mesh_group) (acc : list uv) :
  gather_uvs gs acc = acc ++ flat_map (fun g => group_uvs (grp g)) gs.
Proof.
  revert acc. induction gs as [|g gs IH]; intros acc; simpl.
  - rewrite app_nil_r. reflexivity.
  - rewrite IH, app_assoc. reflexivity.
Qed.

Lemma group_uvs_per_vertex (g : group) :
  List.length (group_uvs g) = List.length (vertices g) /\
  (group_uvs g = uvs g \/ group_uvs g = repeat (0, 0) (List.length (vertices g))).
Proof.
  unfold group_uvs.
  destruct (Nat.eqb (List.length (uvs g)) (List.length (vertices g))) eqn:E.
  - apply Nat.eqb_eq in E. auto.
  - rewrite repeat_length. auto.
Qed.

Lemma fit_uvs_closed (l : list uv) (n : nat) :
  fit_uvs l n = firstn n (l ++ repeat (0, 0) (n - List.length l)) /\
  List.length (fit_uvs l n) = n.
Proof.
  unfold fit_uvs.
  destruct (Nat.ltb (List.length l) n) eqn:E1.
  - apply Nat.ltb_lt in E1.
    assert (L : List.length (l ++ repeat (0, 0) (n - List.length l)) = n)
      by (rewrite length_app, repeat_length; lia).
    split; [|exact L].
    rewrite <- L at 2. rewrite firstn_all. reflexivity.
  - apply Nat.ltb_ge in E1.
    replace (n - List.length l)%nat with 0%nat by lia.
    simpl. rewrite app_nil_r.
    destruct (Nat.ltb n (List.length l)) eqn:E2.
    + apply Nat.ltb_lt in E2. split; [reflexivity|].
      rewrite length_firstn. lia.
    + apply Nat.ltb_ge in E2. assert (n = List.length l) by lia. subst n.
      rewrite firstn_all. auto.
Qed.

Lemma obj_lines_v (verts : list vertex) (groups : list mesh_group)
  (scale : bool) :
  filter is_v_line (obj_lines str_float32 verts groups scale)
  = map (v_line str_float32 scale) verts.
Proof.
  unfold obj_lines. rewrite !filter_app.
  rewrite filter_map_all by (intros v; apply v_line_kind).
  rewrite filter_map_none by (intros p; apply vt_line_kind).
  rewrite filter_f_lines by (intros t; apply f_line_kind).
  rewrite !app_nil_r. reflexivity.
Qed.

Lemma obj_lines_vt (verts : list vertex) (groups : list mesh_group)
  (scale : bool) :
  filter is_vt_line (obj_lines str_float32 verts groups scale)
  = map vt_line
      (fit_uvs (flat_map (fun g => group_uvs (grp g)) groups)
               (List.length verts)).
Proof.
  unfold obj_lines. rewrite !filter_app.
  rewrite filter_map_none by (intros v; apply v_line_kind).
  rewrite filter_map_all by (intros p; apply vt_line_kind).
  rewrite filter_f_lines by (intros t; apply f_line_kind).
  rewrite gather_uvs_flat, app_nil_r. reflexivity.
Qed.

(** C9.  Whatever the vertices, the groups and the scale option, the
    exported lines hold exactly as many [vt] lines as [v] lines, one per
    global vertex.  The [vt] lines render the groups' UV contributions, in
    group order, cut or filled with [(0, 0)] to the number of vertices; a
    group contributes one UV per vertex, its own UVs when it has as many as
    vertices and [(0, 0)] for each vertex otherwise.  The assembly is a total
    function: there is no failure for missing UVs. *)
Theorem C9_vt_lines_match_v_lines (verts : list vertex)
  (groups : list mesh_group) (scale : bool) :
  let lines := obj_lines str_float32 verts groups scale in
  let global_uvs := flat_map (fun g => group_uvs (grp g)) groups in
  List.length (filter is_vt_line lines) = List.length (filter is_v_line lines)
  /\ List.length (filter is_v_line lines) = List.length verts
  /\ filter is_vt_line lines
     = map vt_line
         (firstn (List.length verts)
            (global_uvs
             ++ repeat (0, 0) (List.length verts - List.length global_uvs)))
  /\ Forall (fun g =>
               List.length (group_uvs (grp g)) = List.length (vertices (grp g))
               /\ (group_uvs (grp g) = uvs (grp g) \/
                   group_uvs (grp g)
                   = repeat (0, 0) (List.length (vertices (grp g)))))
            groups.
Proof.
  cbv zeta. rewrite obj_lines_v, obj_lines_vt, !length_map.
  destruct (fit_uvs_closed (flat_map (fun g => group_uvs (grp g)) groups)
              (List.length verts)) as [F1 F2].
  rewrite F2. rewrite <- F1.
  repeat split.
  apply Forall_forall. intros g _. apply group_uvs_per_vertex.
Qed.

End ExportProperties.

(** ** C10: a buffer without any header *)

Lemma scan_loop_no_header (d : bytes) (fuel : nat) :
  forall i gs,
    0 <= i -> Z.max 0 (len d - 4 - i) < Z.of_nat fuel ->
    (forall k p xxb, i <= k < len d - 4 -> In p patterns ->
                     vertex_header d k p <> Some (Some xxb)) ->
    scan_loop d fuel i gs = Returned true (gs, EmptyString).
Proof.
  induction fuel as [|fuel IH]; intros i gs Hi F Hno; [lia|].
  simpl. destruct (i <? len d - 4) eqn:B; [|reflexivity].
  apply Z.ltb_lt in B.
  rewrite loop_body_no_header; [|lia|].
  - apply IH; try lia. intros k p xxb Hk. apply Hno. lia.
  - intros p xxb. apply Hno. lia.
Qed.

Lemma parse_no_header (d : bytes) :
  (forall k p xxb, 0 <= k < len d - 4 -> In p patterns ->
                   vertex_header d k p <> Some (Some xxb)) ->
  parse (inr d)
  = Returned true
      (scanned d [], Some {| model_vertices := []; model_groups := [] |}).
Proof.
  intros Hno. unfold parse, read_pck_file, find_vertex_patterns, loaded.
  cbn [data vertex_groups].
  assert (F : Z.max 0 (len d - 4 - 0) < Z.of_nat (S (List.length d)))
    by (unfold len; lia).
  rewrite (scan_loop_no_header d _ 0 [] (Z.le_refl 0) F Hno).
  reflexivity.
Qed.

(** Buffers shorter than five bytes, whatever they hold. *)
Lemma short_buffer_empty_model (d : bytes) :
  len d < 5 ->
  parse (inr d)
  = Returned true
      (scanned d [], Some {| model_vertices := []; model_groups := [] |}).
Proof.
  intros H. apply parse_no_header. intros k p xxb Hk. lia.
Qed.

(** C10.  When no tested position (no offset with at least five bytes
    remaining) holds a candidate vertex header of either pattern, [parse]
    returns [True] with no group, no vertex and no face.  A buffer in which no
    position at all matches is such a buffer, and so is every buffer shorter
    than five bytes, the empty one included. *)
Theorem C10_no_header_empty_model (d : bytes) :
  (forall k p xxb, 0 <= k < len d - 4 -> In p patterns ->
                   vertex_header d k p <> Some (Some xxb)) ->
  parse (inr d)
  = Returned true
      (scanned d [], Some {| model_vertices := []; model_groups := [] |}).
Proof.
  exact (parse_no_header d).
Qed.

(** C10 at a six-byte buffer: offsets 0 and 1 are tested, none matches. *)
Lemma C10_no_header_empty_model_witness :
  parse (inr [x01; xee; x03; x69; x05; x06])
  = Returned true
      (scanned [x01; xee; x03; x69; x05; x06] [],
       Some {| model_vertices := []; model_groups := [] |}).
Proof.
  apply (C10_no_header_empty_model [x01; xee; x03; x69; x05; x06]).
  intros k p xxb Hk Hp.
  change (len [x01; xee; x03; x69; x05; x06]) with 6 in Hk.
  assert (K : k = 0 \/ k = 1) by lia.
  destruct K as [-> | ->]; destruct Hp as [<-|[<-|[]]]; vm_compute; discriminate.
Defined.

(** * Further properties of the code *)

(** ** Where a group comes from *)

Lemma loop_body_found_pattern (d : bytes) (i : Z) (g : group) (next : Z) :
  loop_body d i = Found g next ->
  exists p, In p patterns /\ try_pattern d i p = Found g next.
Proof.
  unfold loop_body, patterns, for_patterns. intros H.
  destruct (try_pattern d i pattern1) as [|g1 n1|m1|] eqn:T1;
    try discriminate.
  - destruct (try_pattern d i pattern2) as [|g2 n2|m2|] eqn:T2;
      try discriminate.
    inversion H. subst. exists pattern2. simpl. auto.
  - inversion H. subst. exists pattern1. simpl. auto.
Qed.

(** Every group of a loop state was returned by one pattern's pass at the
    group's start, a position the loop tested. *)
Lemma loop_state_groups_origin (d : bytes) (n : nat) (i : Z) (gs : list group) :
  loop_state d n = Some (i, gs) ->
  Forall (fun g => 0 <= start g < len d - 4 /\
                   exists p, In p patterns /\
                             try_pattern d (start g) p = Found g (cursor_after g))
         gs.
Proof.
  revert i gs. induction n as [|n IH]; intros i gs H.
  - inversion H. constructor.
  - simpl in H. destruct (loop_state d n) as [[i0 gs0]|] eqn:S0; [|discriminate].
    specialize (IH i0 gs0 eq_refl).
    pose proof (loop_state_inv d n i0 gs0 S0) as Inv.
    unfold loop_step in H.
    destruct (i0 <? len d - 4) eqn:B; [|discriminate]. apply Z.ltb_lt in B.
    assert (Hi0 : 0 <= i0 < len d - 4) by (destruct Inv; lia).
    pose proof (loop_body_cases d i0 Hi0) as C.
    destruct (loop_body d i0) as [|g next|msg|] eqn:LB; try discriminate.
    + inversion H. subst. exact IH.
    + inversion H. subst. destruct C as [_ [C2 C3]].
      apply Forall_app. split; [exact IH|]. constructor; [|constructor].
      rewrite C2. split; [exact Hi0|].
      destruct (loop_body_found_pattern d i0 g _ LB) as [p [Hp T]].
      exists p. split; [exact Hp | rewrite <- C3; exact T].
Qed.

Lemma returned_group_origin (d : bytes) (b : bool) (self : PCKParser)
  (g : group) :
  find_vertex_patterns (loaded d) = Returned b self ->
  In g (vertex_groups self) ->
  0 <= start g < len d - 4 /\
  exists p, In p patterns /\
            try_pattern d (start g) p = Found g (cursor_after g).
Proof.
  intros Hrun Hin.
  destruct (returned_groups_state d b self Hrun) as [m [i St]].
  pose proof (loop_state_groups_origin d m i _ St) as F.
  rewrite Forall_forall in F. exact (F g Hin).
Qed.

(** ** Decoding at an offset *)

Lemma byte_at_skipn (d : bytes) (off : Z) (j : nat) :
  0 <= off ->
  byte_at d (off + Z.of_nat j) = nth j (skipn (Z.to_nat off) d) x00.
Proof.
  intros H. unfold byte_at. rewrite nth_skipn. f_equal. lia.
Qed.

Lemma unpack_hhh_at (d : bytes) (off : Z) :
  0 <= off -> off + 6 <= len d -> unpack_hhh d off = Some (vertex_at d off).
Proof.
  intros H0 H1. unfold unpack_hhh, vertex_at.
  destruct (off <? 0) eqn:E; [apply Z.ltb_lt in E; lia|].
  pose proof (byte_at_skipn d off 0 H0) as B0.
  pose proof (byte_at_skipn d off 1 H0) as B1.
  pose proof (byte_at_skipn d off 2 H0) as B2.
  pose proof (byte_at_skipn d off 3 H0) as B3.
  pose proof (byte_at_skipn d off 4 H0) as B4.
  pose proof (byte_at_skipn d off 5 H0) as B5.
  cbn [Z.of_nat Pos.of_succ_nat Pos.succ] in *. rewrite Z.add_0_r in B0.
  rewrite B0, B1, B2, B3, B4, B5.
  pose proof (skipn_long d off 6 H0 H1) as L.
  destruct (skipn (Z.to_nat off) d) as [|? [|? [|? [|? [|? [|? ?]]]]]];
    simpl in L; try lia. reflexivity.
Qed.

Lemma unpack_hh_at (d : bytes) (off : Z) :
  0 <= off -> off + 4 <= len d -> unpack_hh d off = Some (uv_at d off).
Proof.
  intros H0 H1. unfold unpack_hh, uv_at.
  destruct (off <? 0) eqn:E; [apply Z.ltb_lt in E; lia|].
  pose proof (byte_at_skipn d off 0 H0) as B0.
  pose proof (byte_at_skipn d off 1 H0) as B1.
  pose proof (byte_at_skipn d off 2 H0) as B2.
  pose proof (byte_at_skipn d off 3 H0) as B3.
  cbn [Z.of_nat Pos.of_succ_nat Pos.succ] in *. rewrite Z.add_0_r in B0.
  rewrite B0, B1, B2, B3.
  pose proof (skipn_long d off 4 H0 H1) as L.
  destruct (skipn (Z.to_nat off) d) as [|? [|? [|? [|? ?]]]];
    simpl in L; try lia. reflexivity.
Qed.

Lemma face_value_at (d : bytes) (off : Z) :
  0 <= off -> off + 3 <= len d ->
  face_value d off = int_of_byte (byte_at d off).
Proof.
  intros H0 H1. unfold face_value, unpack_BBB.
  destruct (off <? 0) eqn:E; [apply Z.ltb_lt in E; lia|].
  pose proof (byte_at_skipn d off 0 H0) as B0.
  cbn [Z.of_nat] in B0. rewrite Z.add_0_r in B0. rewrite B0.
  pose proof (skipn_long d off 3 H0 H1) as L.
  destruct (skipn (Z.to_nat off) d) as [|? [|? [|? ?]]];
    simpl in L; try lia. reflexivity.
Qed.

Lemma read_vertices_at (d : bytes) (vstart : Z) (n a : nat) :
  0 <= vstart -> vstart + 6 * Z.of_nat (a + n) <= len d ->
  read_vertices d vstart (map (fun k => Z.of_nat k * 6) (seq a n))
  = Some (map (fun k => vertex_at d (vstart + 6 * Z.of_nat k)) (seq a n)).
Proof.
  intros H0. revert a. induction n as [|n IH]; intros a H1; simpl.
  - reflexivity.
  - rewrite unpack_hhh_at by lia. rewrite IH by lia.
    replace (vstart + Z.of_nat a * 6) with (vstart + 6 * Z.of_nat a) by lia.
    reflexivity.
Qed.

Lemma read_uvs_at (d : bytes) (ustart : Z) (n a : nat) :
  0 <= ustart -> ustart + 4 * Z.of_nat (a + n) <= len d ->
  read_uvs d ustart (map (fun k => Z.of_nat k * 4) (seq a n))
  = Some (map (fun k => uv_at d (ustart + 4 * Z.of_nat k)) (seq a n)).
Proof.
  intros H0. revert a. induction n as [|n IH]; intros a H1; simpl.
  - reflexivity.
  - rewrite unpack_hh_at by lia. rewrite IH by lia.
    replace (ustart + Z.of_nat a * 4) with (ustart + 4 * Z.of_nat a) by lia.
    reflexivity.
Qed.

Lemma int16_le_range (lo hi : byte) : int16 (int16_le lo hi).
Proof.
  unfold int16, int16_le.
  pose proof (int_of_byte_range lo). pose proof (int_of_byte_range hi).
  destruct (int_of_byte lo + 256 * int_of_byte hi <? 32768) eqn:E.
  - apply Z.ltb_lt in E. lia.
  - apply Z.ltb_ge in E. lia.
Qed.

(** The two's complement reading: the value is the unsigned one modulo
    [2^16]. *)
Lemma int16_le_mod (lo hi : byte) :
  int16_le lo hi mod 65536 = int_of_byte lo + 256 * int_of_byte hi.
Proof.
  unfold int16_le.
  pose proof (int_of_byte_range lo). pose proof (int_of_byte_range hi).
  destruct (int_of_byte lo + 256 * int_of_byte hi <? 32768) eqn:E.
  - apply Z.mod_small. lia.
  - apply Z.ltb_ge in E.
    replace (int_of_byte lo + 256 * int_of_byte hi - 65536)
      with (int_of_byte lo + 256 * int_of_byte hi + (-1) * 65536) by lia.
    rewrite Z.mod_add by lia. apply Z.mod_small. lia.
Qed.

Lemma slice_header (d : bytes) (i : Z) (a b c e : byte) :
  0 <= i -> slice d i (i + 2) = [a; b] ->
  getitem d (i + 2) = Some c -> getitem d (i + 3) = Some e ->
  slice d i (i + 4) = [a; b; c; e].
Proof.
  intros Hi. unfold slice, getitem.
  destruct (i + 2 <? 0) eqn:E2; [apply Z.ltb_lt in E2; lia|]. rewrite E2.
  destruct (i + 3 <? 0) eqn:E3; [apply Z.ltb_lt in E3; lia|]. rewrite E3.
  replace (Z.to_nat (i + 2 - i)) with 2%nat by lia.
  replace (Z.to_nat (i + 4 - i)) with 4%nat by lia.
  replace (Z.to_nat (i + 2)) with (Z.to_nat i + 2)%nat by lia.
  replace (Z.to_nat (i + 3)) with (Z.to_nat i + 3)%nat by lia.
  rewrite <- !nth_error_skipn.
  destruct (skipn (Z.to_nat i) d) as [|x0 [|x1 [|x2 [|x3 rest]]]];
    simpl; intros; try discriminate; congruence.
Qed.

(** ** The anatomy of an accepted group *)

Lemma vertex_header_slice (d : bytes) (i : Z) (p : pattern_info) (xxb : byte) :
  In p patterns -> 0 <= i ->
  vertex_header d i p = Some (Some xxb) ->
  slice d i (i + 4) = prefix p ++ [xxb; x69].
Proof.
  intros Hp Hi VH. apply vertex_header_some in VH.
  destruct VH as [Sl [G2 [_ G3]]].
  destruct Hp as [<-|[<-|[]]]; simpl in *;
    eapply slice_header; eauto.
Qed.

Lemma read_uv_block_anatomy (d : bytes) (p : pattern_info) (xxb : byte)
  (pos : Z) (us : list uv) (span : option (Z * Z)) (pos' : Z) :
  In p patterns -> 0 <= pos <= len d ->
  read_uv_block d p xxb pos = inr (us, span, pos') ->
  (span = None /\ us = [] /\ pos' = pos /\
   slice d pos (pos + 4) <> expected_uv_header p xxb)
  \/
  (span = Some (pos + 4, pos + 4 + 4 * int_of_byte xxb) /\
   pos' = pos + 4 + 4 * int_of_byte xxb /\ pos' <= len d /\
   slice d pos (pos + 4) = expected_uv_header p xxb /\
   us = map (fun k => uv_at d (pos + 4 + 4 * Z.of_nat k))
            (seq 0 (Z.to_nat (int_of_byte xxb)))).
Proof.
  intros Hp Hpos. unfold read_uv_block.
  pose proof (int_of_byte_range xxb) as R.
  assert (HL : len (expected_uv_header p xxb) = 4)
    by (destruct Hp as [<-|[<-|[]]]; reflexivity).
  destruct (pos + 4 <=? len d) eqn:E1.
  - destruct (bytes_eqb _ _) eqn:E2.
    + apply bytes_eqb_eq in E2.
      destruct (len d <? pos + 4 + int_of_byte xxb * 4) eqn:E3; [discriminate|].
      apply Z.ltb_ge in E3. rewrite range_multiple by lia.
      rewrite read_uvs_at by lia.
      intros H. inversion H. subst. right.
      replace (pos + 4 + int_of_byte xxb * 4)
        with (pos + 4 + 4 * int_of_byte xxb) by lia.
      refine (conj eq_refl (conj eq_refl (conj _ (conj E2 eq_refl)))). lia.
    + intros H. inversion H. subst. left.
      refine (conj eq_refl (conj eq_refl (conj eq_refl _))).
      intros E. apply bytes_eqb_eq in E. congruence.
  - apply Z.leb_gt in E1. intros H. inversion H. subst. left.
    refine (conj eq_refl (conj eq_refl (conj eq_refl _))).
    intros E. destruct (slice_length_le d pos' (pos' + 4)) as [L|L]; try lia.
    rewrite E, HL in L. lia.
Qed.

Lemma try_pattern_found_anatomy (d : bytes) (i : Z) (p : pattern_info)
  (g : group) (next : Z) :
  In p patterns -> 0 <= i < len d - 4 ->
  try_pattern d i p = Found g next ->
  exists xxb,
    vertex_header d i p = Some (Some xxb) /\
    start g = i /\ pattern g = pattern_name p /\ XX g = int_of_byte xxb /\
    vertices_offset g = i + 4 /\ vertices_end g = i + 4 + 6 * XX g /\
    vertices_end g <= len d /\
    vertices g = map (fun k => vertex_at d (i + 4 + 6 * Z.of_nat k))
                     (seq 0 (Z.to_nat (XX g))) /\
    read_uv_block d p xxb (vertices_end g)
    = inr (uvs g, uvs_span g, pos_after_uv g) /\
    find d (face_signature p xxb) (pos_after_uv g) = faces_offset g /\
    faces_offset g <> -1.
Proof.
  intros Hp Hi. unfold try_pattern.
  destruct (vertex_header d i p) as [[xxb|]|] eqn:VH; try discriminate.
  pose proof (int_of_byte_range xxb) as R.
  destruct (len d <? i + 4 + int_of_byte xxb * 6) eqn:E1; [discriminate|].
  apply Z.ltb_ge in E1. rewrite range_multiple by lia.
  rewrite read_vertices_at by lia.
  destruct (read_uv_block d p xxb (i + 4 + int_of_byte xxb * 6))
    as [msg|[[us span] pos]] eqn:UV; [discriminate|].
  pose proof UV as UV'.
  apply read_uv_block_anatomy in UV'; [|exact Hp|lia].
  unfold read_face_block.
  destruct (find d (face_signature p xxb) pos =? -1) eqn:E2; [discriminate|].
  apply Z.eqb_neq in E2.
  destruct (len d <? _); [discriminate|].
  destruct (read_faces _ _ _ _ _ _) as [[act inact]|]; [|discriminate].
  intros H. inversion H. subst g next. clear H.
  exists xxb. unfold pos_after_uv.
  cbn [start pattern XX vertices vertices_offset vertices_end uvs uvs_span
       faces_offset].
  replace (i + 4 + 6 * int_of_byte xxb) with (i + 4 + int_of_byte xxb * 6)
    by lia.
  assert (P : pos = match span with
                    | Some (_, uvs_end) => uvs_end
                    | None => i + 4 + int_of_byte xxb * 6
                    end).
  { destruct UV' as [[-> [_ [-> _]]]|[-> [-> _]]]; reflexivity. }
  rewrite <- P. rewrite UV.
  repeat (split; [try reflexivity; try lia; auto|]); auto.
Qed.

(** The anatomy of every group a scan returns. *)
Lemma returned_group_anatomy (d : bytes) (b : bool) (self : PCKParser)
  (g : group) :
  find_vertex_patterns (loaded d) = Returned b self ->
  In g (vertex_groups self) ->
  0 <= start g < len d - 4 /\
  exists p xxb,
    group_header d g p xxb /\
    vertex_header d (start g) p = Some (Some xxb) /\
    vertices_offset g = start g + 4 /\
    vertices_end g = start g + 4 + 6 * XX g /\
    vertices_end g <= len d /\
    vertices g = map (fun k => vertex_at d (start g + 4 + 6 * Z.of_nat k))
                     (seq 0 (Z.to_nat (XX g))) /\
    read_uv_block d p xxb (vertices_end g)
    = inr (uvs g, uvs_span g, pos_after_uv g) /\
    find d (face_signature p xxb) (pos_after_uv g) = faces_offset g /\
    faces_offset g <> -1.
Proof.
  intros Hrun Hin.
  destruct (returned_group_origin d b self g Hrun Hin) as [Hs [p [Hp T]]].
  split; [exact Hs|].
  destruct (try_pattern_found_anatomy d (start g) p g _ Hp Hs T)
    as [xxb [VH [_ [A1 [A2 [A3 [A4 [A5 [A6 [A7 [A8 A9]]]]]]]]]]].
  exists p, xxb.
  pose proof (vertex_header_slice d (start g) p xxb Hp (proj1 Hs) VH) as Sl.
  split; [exact (conj Hp (conj A1 (conj A2 Sl)))|].
  repeat (split; [assumption|]). assumption.
Qed.

(** ** How a scan can fail *)

Lemma slice_fits (d pat : bytes) (a b : Z) :
  0 <= a -> 0 < len pat -> slice d a b = pat -> a + len pat <= len d.
Proof.
  intros Ha Hp E. apply (f_equal (@List.length byte)) in E.
  unfold slice in E. rewrite length_firstn, length_skipn in E.
  unfold len in *. lia.
Qed.

Lemma find_first (d pat : bytes) (start r : Z) :
  0 <= start -> 0 < len pat -> start <= r ->
  slice d r (r + len pat) = pat ->
  (forall k, start <= k < r -> slice d k (k + len pat) <> pat) ->
  find d pat start = r.
Proof.
  intros Hs Hp Hr Sl First.
  assert (Rb : r + len pat <= len d)
    by (apply (slice_fits d pat r (r + len pat)); auto; lia).
  destruct (Z.eq_dec (find d pat start) (-1)) as [E|NE].
  - exfalso. unfold find in E.
    destruct (len d <? start) eqn:B; [apply Z.ltb_lt in B; lia|].
    apply Z.ltb_ge in B.
    replace start with (Z.of_nat (Z.to_nat start)) in E at 2 by lia.
    apply find_in_spec in E; [|unfold len in B; lia].
    destruct E as [[_ All]|[H1 _]]; [|lia].
    destruct (All r) as [N|N]; [lia| |lia]. exact (N Sl).
  - destruct (find_found d pat start _ Hs eq_refl NE) as [F1 [F2 [F3 F4]]].
    destruct (Z_lt_le_dec (find d pat start) r) as [L|L].
    + elim (First (find d pat start)); [lia | exact F3].
    + destruct (Z.eq_dec (find d pat start) r) as [->|N]; [reflexivity|].
      elim (F4 r); [lia | exact Sl].
Qed.

(** A scan that returns [False] leaves one of the four messages of the
    bounds checks and of the search for the face signature, never one of the
    [struct.error] handlers; [parse_success] stays [False] and [parse] returns
    [False] with the same parser state and no model. *)
Theorem failed_scan_message (d : bytes) (self : PCKParser) :
  find_vertex_patterns (loaded d) = Returned false self ->
  (error_message self = msg_vertices \/ error_message self = msg_uvs \/
   error_message self = msg_no_faces \/ error_message self = msg_faces) /\
  parse_success self = false /\
  parse (inr d) = Returned false (self, None).
Proof.
  intros Hrun.
  assert (P : parse (inr d) = Returned false (self, None))
    by (unfold parse, read_pck_file; rewrite Hrun; reflexivity).
  destruct (find_vertex_patterns_run d) as [m [i [gs [St R]]]].
  destruct R as [[_ E]|[B [msg [LB E]]]]; rewrite E in Hrun; [discriminate|].
  inversion Hrun. subst self. cbn [error_message parse_success rejected].
  split; [|split; [reflexivity | exact P]].
  pose proof (loop_state_inv d m i gs St) as Inv.
  assert (Hi : 0 <= i < len d - 4) by (destruct Inv; lia).
  pose proof (loop_body_cases d i Hi) as C. rewrite LB in C. exact C.
Qed.

Lemma failed_scan_message_witness :
  let d := [xff] ++ [xee; x00; x05; x69] ++ repeat x00 7 in
  let self := rejected d [] msg_vertices in
  (error_message self = msg_vertices \/ error_message self = msg_uvs \/
   error_message self = msg_no_faces \/ error_message self = msg_faces) /\
  parse_success self = false /\
  parse (inr d) = Returned false (self, None).
Proof.
  apply (failed_scan_message ([xff] ++ [xee; x00; x05; x69] ++ repeat x00 7)
           (rejected ([xff] ++ [xee; x00; x05; x69] ++ repeat x00 7) []
                     msg_vertices)).
  vm_compute. reflexivity.
Defined.

(** A UV header right after the vertex block announces [4 * N] bytes of UVs:
    when the buffer ends before them, the scan returns [False] with the
    message for corrupted UVs and does not append the group. *)
Theorem truncated_uvs (d : bytes) (n : nat) (i : Z) (gs : list group)
  (p : pattern_info) (xxb : byte) :
  let N := int_of_byte xxb in
  loop_state d n = Some (i, gs) -> i < len d - 4 ->
  In p patterns ->
  vertex_header d i p = Some (Some xxb) ->
  slice d (i + 4 + 6 * N) (i + 4 + 6 * N + 4) = expected_uv_header p xxb ->
  len d < i + 4 + 6 * N + 4 + 4 * N ->
  find_vertex_patterns (loaded d) = Returned false (rejected d gs msg_uvs) /\
  parse (inr d) = Returned false (rejected d gs msg_uvs, None).
Proof.
  intros N St B Hp VH Hdr Short. subst N.
  pose proof (loop_state_inv d n i gs St) as Inv.
  assert (Hi : 0 <= i < len d - 4) by (destruct Inv; lia).
  destruct (loop_body_at_header d i p xxb Hp Hi VH) as [LB _].
  pose proof (int_of_byte_range xxb) as R.
  assert (HL : len (expected_uv_header p xxb) = 4)
    by (destruct Hp as [<-|[<-|[]]]; reflexivity).
  assert (Fit : i + 4 + 6 * int_of_byte xxb + 4 <= len d).
  { assert (0 < len (expected_uv_header p xxb)) by lia.
    pose proof (slice_fits d _ (i + 4 + 6 * int_of_byte xxb) _
                  ltac:(lia) H Hdr). lia. }
  assert (TP : try_pattern d i p = Fail msg_uvs).
  { unfold try_pattern. rewrite VH.
    destruct (len d <? i + 4 + int_of_byte xxb * 6) eqn:E;
      [apply Z.ltb_lt in E; lia|].
    rewrite range_multiple by lia. rewrite read_vertices_at by lia.
    unfold read_uv_block.
    replace (i + 4 + int_of_byte xxb * 6) with (i + 4 + 6 * int_of_byte xxb)
      by lia.
    destruct (i + 4 + 6 * int_of_byte xxb + 4 <=? len d) eqn:E1;
      [|apply Z.leb_gt in E1; lia].
    rewrite Hdr.
    assert (Q : bytes_eqb (expected_uv_header p xxb) (expected_uv_header p xxb)
                = true) by (apply bytes_eqb_eq; reflexivity).
    rewrite Q.
    destruct (len d <? i + 4 + 6 * int_of_byte xxb + 4 + int_of_byte xxb * 4)
      eqn:E2; [reflexivity|]. apply Z.ltb_ge in E2. lia. }
  rewrite TP in LB.
  split; [exact (find_vertex_patterns_fail_at d n i gs _ St B LB)|].
  exact (parse_fail_at d n i gs _ St B LB).
Qed.

(** [1B 02 01 69], one vertex, the UV header [F1 01 01 65] and two bytes. *)
Lemma truncated_uvs_witness :
  let d := [x1b; x02; x01; x69] ++ repeat x00 6 ++ [xf1; x01; x01; x65]
           ++ [x00; x00] in
  find_vertex_patterns (loaded d) = Returned false (rejected d [] msg_uvs) /\
  parse (inr d) = Returned false (rejected d [] msg_uvs, None).
Proof.
  apply (truncated_uvs
           ([x1b; x02; x01; x69] ++ repeat x00 6 ++ [xf1; x01; x01; x65]
            ++ [x00; x00]) 0 0 [] pattern2 x01).
  - reflexivity.
  - reflexivity.
  - simpl. right. left. reflexivity.
  - reflexivity.
  - reflexivity.
  - reflexivity.
Defined.

(** When the first face signature from the end of the vertex and UV blocks
    on is at [pf] and the buffer ends before the six skipped bytes and the
    [3 * (N - 2)] bytes of face records, the scan returns [False] with the
    message for corrupted faces and does not append the group. *)
Theorem truncated_faces (d : bytes) (n : nat) (i : Z) (gs : list group)
  (p : pattern_info) (xxb : byte)
  (us : list uv) (span : option (Z * Z)) (pos pf : Z) :
  let N := int_of_byte xxb in
  loop_state d n = Some (i, gs) -> i < len d - 4 ->
  In p patterns ->
  vertex_header d i p = Some (Some xxb) ->
  i + 4 + N * 6 <= len d ->
  read_uv_block d p xxb (i + 4 + N * 6) = inr (us, span, pos) ->
  pos <= pf ->
  slice d pf (pf + 4) = face_signature p xxb ->
  (forall k, pos <= k < pf -> slice d k (k + 4) <> face_signature p xxb) ->
  len d < pf + 4 + 6 + (N - 2) * 3 ->
  find_vertex_patterns (loaded d) = Returned false (rejected d gs msg_faces) /\
  parse (inr d) = Returned false (rejected d gs msg_faces, None).
Proof.
  intros N St B Hp VH Fit UV Hpf Sig First Short. subst N.
  pose proof (loop_state_inv d n i gs St) as Inv.
  assert (Hi : 0 <= i < len d - 4) by (destruct Inv; lia).
  destruct (loop_body_at_header d i p xxb Hp Hi VH) as [LB _].
  pose proof (int_of_byte_range xxb) as R.
  pose proof (faces_prefix_len p xxb Hp) as Ls.
  assert (TP : try_pattern d i p = Fail msg_faces).
  { unfold try_pattern. rewrite VH.
    destruct (len d <? i + 4 + int_of_byte xxb * 6) eqn:E;
      [apply Z.ltb_lt in E; lia|].
    rewrite range_multiple by lia. rewrite read_vertices_at by lia.
    rewrite UV. apply read_uv_block_inr in UV; [|lia].
    unfold read_face_block.
    rewrite (find_first d (face_signature p xxb) pos pf); try lia;
      try (rewrite Ls; assumption).
    destruct (pf =? -1) eqn:E1; [apply Z.eqb_eq in E1; lia|].
    rewrite Ls.
    destruct (len d <? pf + 4 + 6 + (int_of_byte xxb - 2) * 3) eqn:E2;
      [reflexivity|]. apply Z.ltb_ge in E2. lia. }
  rewrite TP in LB.
  split; [exact (find_vertex_patterns_fail_at d n i gs _ St B LB)|].
  exact (parse_fail_at d n i gs _ St B LB).
Qed.

(** [EE 00 03 69], three vertices, the face signature, and only five of the
    six skipped bytes and none of the one face record. *)
Lemma truncated_faces_witness :
  let d := [xee; x00; x03; x69] ++ repeat x00 18 ++ [x9a; x00; x03; x6a]
           ++ repeat x00 5 in
  find_vertex_patterns (loaded d) = Returned false (rejected d [] msg_faces) /\
  parse (inr d) = Returned false (rejected d [] msg_faces, None).
Proof.
  apply (truncated_faces
           ([xee; x00; x03; x69] ++ repeat x00 18 ++ [x9a; x00; x03; x6a]
            ++ repeat x00 5) 0 0 [] pattern1 x03 [] None 22 22).
  - reflexivity.
  - reflexivity.
  - simpl. left. reflexivity.
  - reflexivity.
  - vm_compute. discriminate.
  - reflexivity.
  - lia.
  - reflexivity.
  - intros k Hk. lia.
  - reflexivity.
Defined.

(** ** What an accepted group holds *)

(** A group starts where its pattern's vertex header is: the four bytes at
    ['start'] are the prefix of the pattern named by ['pattern'], the byte
    whose value is ['XX'], and [0x69]; ['XX'] is at most 42. *)
Theorem group_starts_at_header (d : bytes) (b : bool) (self : PCKParser)
  (g : group) :
  find_vertex_patterns (loaded d) = Returned b self ->
  In g (vertex_groups self) ->
  0 <= start g /\ start g + 4 < len d /\ 0 <= XX g <= 0x2A /\
  exists p xxb, group_header d g p xxb.
Proof.
  intros Hrun Hin.
  destruct (returned_group_anatomy d b self g Hrun Hin)
    as [Hs [p [xxb [GH [VH _]]]]].
  apply vertex_header_some in VH. destruct VH as [_ [_ [Hxx _]]].
  pose proof (int_of_byte_range xxb) as R.
  destruct GH as [Hp [Hn [HX Sl]]].
  split; [lia|]. split; [lia|]. split; [lia|].
  exists p, xxb. exact (conj Hp (conj Hn (conj HX Sl))).
Qed.

Lemma group_starts_at_header_witness :
  let d := scenario_buffer x00 x00 x00 x00 x00 x00 in
  0 <= start scenario_group /\ start scenario_group + 4 < len d /\
  0 <= XX scenario_group <= 0x2A /\
  exists p xxb, group_header d scenario_group p xxb.
Proof.
  apply (group_starts_at_header (scenario_buffer x00 x00 x00 x00 x00 x00) true
           (scanned (scenario_buffer x00 x00 x00 x00 x00 x00) [scenario_group])).
  - vm_compute. reflexivity.
  - simpl. left. reflexivity.
Defined.

(** The vertices of a group are the [XX] consecutive six-byte records that
    follow its header, each read as three little-endian signed 16-bit
    integers, so every coordinate lies in [-32768, 32767]; the block is
    inside the buffer and ['vertices_end'] is [6 * XX] bytes after
    ['vertices_offset']. *)
Theorem group_vertices_decoded (d : bytes) (b : bool) (self : PCKParser)
  (g : group) :
  find_vertex_patterns (loaded d) = Returned b self ->
  In g (vertex_groups self) ->
  vertices_offset g = start g + 4 /\
  vertices_end g = vertices_offset g + 6 * XX g /\
  vertices_end g <= len d /\
  len (vertices g) = XX g /\
  vertices g = map (fun k => vertex_at d (vertices_offset g + 6 * Z.of_nat k))
                   (seq 0 (Z.to_nat (XX g))) /\
  Forall (fun v => let '(x, y, z) := v in int16 x /\ int16 y /\ int16 z)
         (vertices g).
Proof.
  intros Hrun Hin.
  destruct (returned_group_anatomy d b self g Hrun Hin)
    as [Hs [p [xxb [[_ [_ [HX _]]] [_ [A1 [A2 [A3 [A4 _]]]]]]]]].
  pose proof (int_of_byte_range xxb) as R.
  rewrite A1. split; [reflexivity|]. split; [lia|]. split; [exact A3|].
  split; [|split; [exact A4|]].
  - rewrite A4. unfold len. rewrite length_map, length_seq. lia.
  - rewrite A4. apply Forall_forall. intros v Hv.
    apply in_map_iff in Hv. destruct Hv as [k [<- _]].
    unfold vertex_at. repeat split; apply int16_le_range.
Qed.

(** [EE 00 01 69], the vertex [(-1, 256, -32768)], the face signature and the
    six skipped bytes. *)
Lemma group_vertices_decoded_witness :
  let d := [xee; x00; x01; x69] ++ [xff; xff; x00; x01; x00; x80]
           ++ [x9a; x00; x01; x6a] ++ repeat x00 6 in
  let g := {| pattern := "pattern1"; start := 0; XX := 1;
              vertices := [(-1, 256, -32768)];
              active_faces := []; inactive_faces := []; uvs := [];
              vertices_offset := 4; vertices_end := 10; uvs_span := None;
              faces_offset := 10; faces_end := 11 |} in
  vertices_offset g = start g + 4 /\
  vertices_end g = vertices_offset g + 6 * XX g /\
  vertices_end g <= len d /\
  len (vertices g) = XX g /\
  vertices g = map (fun k => vertex_at d (vertices_offset g + 6 * Z.of_nat k))
                   (seq 0 (Z.to_nat (XX g))) /\
  Forall (fun v => let '(x, y, z) := v in int16 x /\ int16 y /\ int16 z)
         (vertices g).
Proof.
  apply (group_vertices_decoded
           ([xee; x00; x01; x69] ++ [xff; xff; x00; x01; x00; x80]
            ++ [x9a; x00; x01; x6a] ++ repeat x00 6) true
           (scanned ([xee; x00; x01; x69] ++ [xff; xff; x00; x01; x00; x80]
                     ++ [x9a; x00; x01; x6a] ++ repeat x00 6)
              [{| pattern := "pattern1"; start := 0; XX := 1;
                  vertices := [(-1, 256, -32768)];
                  active_faces := []; inactive_faces := []; uvs := [];
                  vertices_offset := 4; vertices_end := 10; uvs_span := None;
                  faces_offset := 10; faces_end := 11 |}])).
  - vm_compute. reflexivity.
  - simpl. left. reflexivity.
Defined.

(** UVs are read only from a block that starts right at the end of the
    vertex block.  Either the four bytes there are not the pattern's UV
    header with the same count byte, and the group has no UV and no UV span;
    or they are, and the group has exactly [XX] UVs, the consecutive four-byte
    records after that header, each two little-endian signed 16-bit integers,
    in a block that lies inside the buffer. *)
Theorem group_uvs_decoded (d : bytes) (b : bool) (self : PCKParser)
  (g : group) :
  find_vertex_patterns (loaded d) = Returned b self ->
  In g (vertex_groups self) ->
  exists p xxb,
    group_header d g p xxb /\
    ((slice d (vertices_end g) (vertices_end g + 4) <> expected_uv_header p xxb
      /\ uvs_span g = None /\ uvs g = [])
     \/
     (slice d (vertices_end g) (vertices_end g + 4) = expected_uv_header p xxb
      /\ uvs_span g = Some (vertices_end g + 4, vertices_end g + 4 + 4 * XX g)
      /\ vertices_end g + 4 + 4 * XX g <= len d
      /\ len (uvs g) = XX g
      /\ uvs g = map (fun k => uv_at d (vertices_end g + 4 + 4 * Z.of_nat k))
                     (seq 0 (Z.to_nat (XX g)))
      /\ Forall (fun t => int16 (fst t) /\ int16 (snd t)) (uvs g))).
Proof.
  intros Hrun Hin.
  destruct (returned_group_anatomy d b self g Hrun Hin)
    as [Hs [p [xxb [GH [_ [A1 [A2 [A3 [_ [A5 _]]]]]]]]]].
  exists p, xxb. split; [exact GH|].
  destruct GH as [Hp [_ [HX _]]].
  pose proof (int_of_byte_range xxb) as R.
  apply read_uv_block_anatomy in A5; [|exact Hp|lia].
  rewrite <- HX in A5.
  destruct A5 as [[S1 [S2 [_ S4]]]|[S1 [S2 [S3 [S4 S5]]]]].
  - left. auto.
  - right. split; [exact S4|]. split; [exact S1|].
    split; [rewrite <- S2; exact S3|].
    split; [|split; [exact S5|]].
    + rewrite S5. unfold len. rewrite length_map, length_seq. lia.
    + rewrite S5. apply Forall_forall. intros t Ht.
      apply in_map_iff in Ht. destruct Ht as [k [<- _]].
      unfold uv_at. split; apply int16_le_range.
Qed.

Lemma uv_buffer_scan :
  find_vertex_patterns (loaded uv_buffer)
  = Returned true (scanned uv_buffer [uv_group]).
Proof. vm_compute. reflexivity. Defined.

Lemma group_uvs_decoded_witness :
  exists p xxb,
    group_header uv_buffer uv_group p xxb /\
    ((slice uv_buffer (vertices_end uv_group) (vertices_end uv_group + 4)
      <> expected_uv_header p xxb
      /\ uvs_span uv_group = None /\ uvs uv_group = [])
     \/
     (slice uv_buffer (vertices_end uv_group) (vertices_end uv_group + 4)
      = expected_uv_header p xxb
      /\ uvs_span uv_group
         = Some (vertices_end uv_group + 4,
                 vertices_end uv_group + 4 + 4 * XX uv_group)
      /\ vertices_end uv_group + 4 + 4 * XX uv_group <= len uv_buffer
      /\ len (uvs uv_group) = XX uv_group
      /\ uvs uv_group
         = map (fun k => uv_at uv_buffer
                           (vertices_end uv_group + 4 + 4 * Z.of_nat k))
               (seq 0 (Z.to_nat (XX uv_group)))
      /\ Forall (fun t => int16 (fst t) /\ int16 (snd t)) (uvs uv_group))).
Proof.
  apply (group_uvs_decoded uv_buffer true (scanned uv_buffer [uv_group])).
  - exact uv_buffer_scan.
  - simpl. left. reflexivity.
Defined.

(** The face section of a group is found by search: ['faces_offset'] is the
    first position, from the end of the UV block (of the vertex block when
    there is none) on, where the pattern's face prefix, the group's count byte
    and [0x6A] stand; six bytes after that signature are skipped, and
    ['faces_end'] is [3 * (XX - 2)] bytes after the signature. *)
Theorem group_face_signature (d : bytes) (b : bool) (self : PCKParser)
  (g : group) :
  find_vertex_patterns (loaded d) = Returned b self ->
  In g (vertex_groups self) ->
  exists p xxb,
    group_header d g p xxb /\
    vertices_end g <= pos_after_uv g <= faces_offset g /\
    faces_offset g + 4 <= len d /\
    slice d (faces_offset g) (faces_offset g + 4) = face_signature p xxb /\
    (forall k, pos_after_uv g <= k < faces_offset g ->
               slice d k (k + 4) <> face_signature p xxb) /\
    faces_end g = faces_offset g + 4 + 3 * (XX g - 2) /\
    faces_offset g + 4 + 6 + 3 * (XX g - 2) <= len d.
Proof.
  intros Hrun Hin.
  destruct (returned_group_anatomy d b self g Hrun Hin)
    as [Hs [p [xxb [GH [_ [A1 [A2 [A3 [_ [A5 [A6 A7]]]]]]]]]]].
  destruct (returned_groups_state d b self Hrun) as [m [i St]].
  scan_invariant St. pose proof (inv_groups _ _ _ _ Inv) as G.
  rewrite Forall_forall in G. specialize (G g Hin).
  exists p, xxb. split; [exact GH|].
  destruct GH as [Hp [_ [HX _]]].
  pose proof (int_of_byte_range xxb) as R.
  apply read_uv_block_inr in A5; [|lia]. destruct A5 as [P _].
  pose proof (faces_prefix_len p xxb Hp) as Ls.
  destruct (find_found d (face_signature p xxb) (pos_after_uv g) _
              ltac:(lia) A6 A7) as [F1 [F2 [F3 F4]]].
  rewrite Ls in F2, F3.
  split; [lia|]. split; [lia|]. split; [exact F3|].
  split; [intros k Hk; specialize (F4 k Hk); rewrite Ls in F4; exact F4|].
  split; [exact (ok_faces_end d g G)|].
  pose proof (ok_fits d g G) as Fit. pose proof (ok_faces_end d g G) as FE.
  unfold cursor_after in Fit. lia.
Qed.

Lemma group_face_signature_witness :
  exists p xxb,
    group_header uv_buffer uv_group p xxb /\
    vertices_end uv_group <= pos_after_uv uv_group <= faces_offset uv_group /\
    faces_offset uv_group + 4 <= len uv_buffer /\
    slice uv_buffer (faces_offset uv_group) (faces_offset uv_group + 4)
    = face_signature p xxb /\
    (forall k, pos_after_uv uv_group <= k < faces_offset uv_group ->
               slice uv_buffer k (k + 4) <> face_signature p xxb) /\
    faces_end uv_group = faces_offset uv_group + 4 + 3 * (XX uv_group - 2) /\
    faces_offset uv_group + 4 + 6 + 3 * (XX uv_group - 2) <= len uv_buffer.
Proof.
  apply (group_face_signature uv_buffer true (scanned uv_buffer [uv_group])).
  - exact uv_buffer_scan.
  - simpl. left. reflexivity.
Defined.

Lemma strip_face_record (d : bytes) (g : group) (k : nat) :
  0 <= faces_offset g ->
  faces_offset g + 10 + 3 * Z.of_nat k + 3 <= len d ->
  strip_face d (faces_offset g + 10) k = face_record d g (Z.of_nat k).
Proof.
  intros H0 H1. unfold strip_face, face_record.
  rewrite face_value_at by lia.
  replace (faces_offset g + 10 + Z.of_nat k * 3)
    with (faces_offset g + 10 + 3 * Z.of_nat k) by lia.
  reflexivity.
Qed.

(** The faces of a group are its [XX - 2] three-byte records after the six
    skipped bytes: the record of rank [k] has the indices [(k+1, k+2, k+3)]
    and the first of its bytes as classification; it is in the active list,
    and not in the inactive one, when that byte is even, and the other way
    round when it is odd.  Nothing else is in the two lists. *)
Theorem group_faces_classified (d : bytes) (b : bool) (self : PCKParser)
  (g : group) :
  find_vertex_patterns (loaded d) = Returned b self ->
  In g (vertex_groups self) ->
  (forall k, 0 <= k < XX g - 2 ->
     faces_offset g + 10 + 3 * k + 3 <= len d /\
     if face_byte (face_record d g k) mod 2 =? 0
     then In (face_record d g k) (active_faces g) /\
          ~ In (face_record d g k) (inactive_faces g)
     else In (face_record d g k) (inactive_faces g) /\
          ~ In (face_record d g k) (active_faces g)) /\
  (forall f, In f (active_faces g ++ inactive_faces g) ->
     exists k, 0 <= k < XX g - 2 /\ f = face_record d g k).
Proof.
  intros Hrun Hin.
  destruct (returned_groups_state d b self Hrun) as [m [i St]].
  scan_invariant St. pose proof (inv_groups _ _ _ _ Inv) as G.
  rewrite Forall_forall in G. specialize (G g Hin).
  destruct G as [Hs Hxx _ _ _ Hve Hfo Hfe Hfit Ha Hi].
  unfold cursor_after in Hfit.
  assert (Rec : forall k : nat,
             (k < Z.to_nat (XX g - 2))%nat ->
             strip_face d (faces_offset g + 10) k = face_record d g (Z.of_nat k)).
  { intros k Hk. apply strip_face_record; lia. }
  split.
  - intros k Hk. split; [lia|].
    assert (Hin' : In (face_record d g k)
                      (map (strip_face d (faces_offset g + 10))
                           (seq 0 (Z.to_nat (XX g - 2))))).
    { apply in_map_iff. exists (Z.to_nat k). split.
      - rewrite Rec by lia. rewrite Z2Nat.id by lia. reflexivity.
      - apply in_seq. lia. }
    rewrite Ha, Hi.
    destruct (face_byte (face_record d g k) mod 2 =? 0) eqn:P.
    + split.
      * apply filter_In. split; [exact Hin'|]. exact P.
      * intros H. apply filter_In in H. destruct H as [_ H].
        unfold is_active in H. rewrite P in H. discriminate.
    + split.
      * apply filter_In. split; [exact Hin'|].
        unfold is_active. rewrite P. reflexivity.
      * intros H. apply filter_In in H. destruct H as [_ H].
        unfold is_active in H. rewrite P in H. discriminate.
  - intros f Hf.
    assert (S : In f (map (strip_face d (faces_offset g + 10))
                          (seq 0 (Z.to_nat (XX g - 2))))).
    { apply in_app_or in Hf. destruct Hf as [Hf|Hf].
      - rewrite Ha in Hf. apply filter_In in Hf. tauto.
      - rewrite Hi in Hf. apply filter_In in Hf. tauto. }
    apply in_map_iff in S. destruct S as [k [<- Hk]]. apply in_seq in Hk.
    exists (Z.of_nat k). split; [lia|]. apply Rec. lia.
Qed.

Lemma group_faces_classified_witness :
  (forall k, 0 <= k < XX uv_group - 2 ->
     faces_offset uv_group + 10 + 3 * k + 3 <= len uv_buffer /\
     if face_byte (face_record uv_buffer uv_group k) mod 2 =? 0
     then In (face_record uv_buffer uv_group k) (active_faces uv_group) /\
          ~ In (face_record uv_buffer uv_group k) (inactive_faces uv_group)
     else In (face_record uv_buffer uv_group k) (inactive_faces uv_group) /\
          ~ In (face_record uv_buffer uv_group k) (active_faces uv_group)) /\
  (forall f, In f (active_faces uv_group ++ inactive_faces uv_group) ->
     exists k, 0 <= k < XX uv_group - 2 /\ f = face_record uv_buffer uv_group k).
Proof.
  apply (group_faces_classified uv_buffer true (scanned uv_buffer [uv_group])).
  - exact uv_buffer_scan.
  - simpl. left. reflexivity.
Defined.

(** ** Offsets of the groups of one scan *)

Lemma two_group_scan :
  find_vertex_patterns (loaded two_group_buffer)
  = Returned true (scanned two_group_buffer [scenario_group; second_group]).
Proof. vm_compute. reflexivity. Defined.

Lemma groups_in_offset_order_witness :
  start scenario_group < start second_group /\
  faces_offset scenario_group + 4 <= start second_group /\
  (2 <= XX scenario_group ->
   faces_offset scenario_group + 4 + 6 + 3 * (XX scenario_group - 2)
   <= start second_group).
Proof.
  apply (groups_in_offset_order two_group_buffer true
           (scanned two_group_buffer [scenario_group; second_group])
           [] [second_group] scenario_group second_group).
  - exact two_group_scan.
  - reflexivity.
  - simpl. left. reflexivity.
Defined.

(** The cursor moves forward at every iteration, by at least eight bytes
    when a group is appended: after [n] iterations it is at least [n] and at
    most the length of the buffer, and a buffer holds at most one group per
    eight bytes. *)
Theorem scan_progress (d : bytes) (n : nat) (i : Z) (gs : list group) :
  loop_state d n = Some (i, gs) ->
  Z.of_nat n <= i <= len d /\ len gs <= Z.of_nat n /\ 8 * len gs <= i.
Proof.
  revert i gs. induction n as [|n IH]; intros i gs H.
  - inversion H. subst. pose proof (len_nonneg d). unfold len at 2 3. simpl. lia.
  - pose proof (loop_state_inv d (S n) i gs H) as Inv'.
    simpl in H. destruct (loop_state d n) as [[i0 gs0]|] eqn:S0; [|discriminate].
    destruct (IH i0 gs0 eq_refl) as [I1 [I2 I3]].
    unfold loop_step in H.
    destruct (i0 <? len d - 4) eqn:B; [|discriminate]. apply Z.ltb_lt in B.
    assert (Hi0 : 0 <= i0 < len d - 4) by lia.
    pose proof (loop_body_cases d i0 Hi0) as C.
    destruct Inv' as [J1 J2 _ _ _ _].
    destruct (loop_body d i0) as [|g next|msg|]; try discriminate.
    + inversion H. subst. lia.
    + inversion H. subst. destruct C as [C1 [C2 C3]].
      pose proof (group_ok_cursor d g C1). rewrite len_app.
      change (len [g]) with 1. lia.
Qed.

Lemma scan_progress_witness :
  Z.of_nat 2 <= 70 <= len two_group_buffer /\
  len [scenario_group; second_group] <= Z.of_nat 2 /\
  8 * len [scenario_group; second_group] <= 70.
Proof.
  apply (scan_progress two_group_buffer 2 70 [scenario_group; second_group]).
  vm_compute. reflexivity.
Defined.

(** ** The header test as a four-byte window *)

Lemma slice_header_inv (d : bytes) (i : Z) (a b c e : byte) :
  0 <= i -> slice d i (i + 4) = [a; b; c; e] ->
  slice d i (i + 2) = [a; b] /\
  getitem d (i + 2) = Some c /\ getitem d (i + 3) = Some e.
Proof.
  intros Hi. unfold slice, getitem.
  destruct (i + 2 <? 0) eqn:E2; [apply Z.ltb_lt in E2; lia|]. rewrite E2.
  destruct (i + 3 <? 0) eqn:E3; [apply Z.ltb_lt in E3; lia|]. rewrite E3.
  replace (Z.to_nat (i + 2 - i)) with 2%nat by lia.
  replace (Z.to_nat (i + 4 - i)) with 4%nat by lia.
  replace (Z.to_nat (i + 2)) with (Z.to_nat i + 2)%nat by lia.
  replace (Z.to_nat (i + 3)) with (Z.to_nat i + 3)%nat by lia.
  rewrite <- !nth_error_skipn.
  destruct (skipn (Z.to_nat i) d) as [|x0 [|x1 [|x2 [|x3 rest]]]];
    simpl; intros H; inversion H; auto.
Qed.

(** The three tests of lines 75-81 amount to one comparison: at a position
    the loop tests, a pattern's header is a candidate with count byte [xxb]
    exactly when the four bytes at the cursor are the pattern's prefix, [xxb]
    and [0x69], with [xxb] at most [0x2A].  When no pattern and count byte
    fit, whatever the reason (prefix, count or last byte), the loop goes on
    one byte further with the same groups. *)
Theorem header_window (d : bytes) (i : Z) (gs : list group) :
  0 <= i < len d - 4 ->
  (forall p xxb, In p patterns ->
     (vertex_header d i p = Some (Some xxb) <->
      slice d i (i + 4) = prefix p ++ [xxb; x69] /\ int_of_byte xxb <= 0x2A))
  /\
  ((forall p xxb, In p patterns -> int_of_byte xxb <= 0x2A ->
                  slice d i (i + 4) <> prefix p ++ [xxb; x69]) ->
   loop_step d (i, gs) = Some (i + 1, gs)).
Proof.
  intros Hi.
  assert (W : forall p xxb, In p patterns ->
     (vertex_header d i p = Some (Some xxb) <->
      slice d i (i + 4) = prefix p ++ [xxb; x69] /\ int_of_byte xxb <= 0x2A)).
  { intros p xxb Hp. split.
    - intros VH. split; [apply vertex_header_slice; auto; lia|].
      apply vertex_header_some in VH. tauto.
    - intros [Sl Hxx]. apply vertex_header_some.
      destruct Hp as [<-|[<-|[]]]; simpl in Sl;
        apply slice_header_inv in Sl; try lia;
        destruct Sl as [S1 [S2 S3]]; auto. }
  split; [exact W|].
  intros Hno. unfold loop_step.
  destruct (i <? len d - 4) eqn:B; [|apply Z.ltb_ge in B; lia].
  rewrite loop_body_no_header; [reflexivity|exact Hi|].
  intros p xxb Hp VH. apply (W p xxb Hp) in VH. destruct VH as [Sl Hxx].
  exact (Hno p xxb Hp Hxx Sl).
Qed.

(** [EE 00 03 68 00]: the last byte of the header is wrong. *)
Lemma header_window_witness :
  let d := [xee; x00; x03; x68; x00] in
  (forall p xxb, In p patterns ->
     (vertex_header d 0 p = Some (Some xxb) <->
      slice d 0 (0 + 4) = prefix p ++ [xxb; x69] /\ int_of_byte xxb <= 0x2A))
  /\
  ((forall p xxb, In p patterns -> int_of_byte xxb <= 0x2A ->
                  slice d 0 (0 + 4) <> prefix p ++ [xxb; x69]) ->
   loop_step d (0, []) = Some (0 + 1, [])).
Proof.
  apply (header_window [xee; x00; x03; x68; x00] 0 []).
  vm_compute. split; [discriminate | reflexivity].
Defined.

(** ** When a group is accepted *)



(** ** The remapper on any list of groups *)

Lemma remap_faces_filter (base n : Z) (fs : list face) (acc : list triangle) :
  remap_faces base n fs acc
  = acc ++ filter (all_in_range n) (map (adjusted_indices base) fs).
Proof.
  revert acc. induction fs as [|f fs IH]; intros acc; simpl.
  - rewrite app_nil_r. reflexivity.
  - destruct (all_in_range n (adjusted_indices base f)); rewrite IH.
    + rewrite <- app_assoc. reflexivity.
    + reflexivity.
Qed.

Lemma all_in_range_mono (n n' : Z) (t : triangle) :
  n <= n' -> all_in_range n t = true -> all_in_range n' t = true.
Proof.
  destruct t as [[a b] c]. unfold all_in_range. intros L.
  rewrite !andb_true_iff, !Z.leb_le, !Z.ltb_lt. lia.
Qed.

Lemma remap_groups_any (gs : list group) :
  forall verts mgs final,
    remap_groups gs verts = (mgs, final) ->
    final = verts ++ flat_map vertices gs /\
    map grp mgs = gs /\
    Forall (fun mg =>
              len verts <= base_index mg /\
              Forall (fun t => all_in_range (len final) t = true)
                     (mesh_active_faces mg ++ mesh_inactive_faces mg) /\
              incl (mesh_active_faces mg)
                   (map (adjusted_indices (base_index mg))
                        (active_faces (grp mg))) /\
              incl (mesh_inactive_faces mg)
                   (map (adjusted_indices (base_index mg))
                        (inactive_faces (grp mg))))
           mgs.
Proof.
  induction gs as [|g gs IH]; intros verts mgs final H; simpl in H.
  - inversion H. subst. rewrite app_nil_r. simpl. auto.
  - destruct (remap_groups gs (verts ++ vertices g)) as [mgs' final'] eqn:R.
    inversion H. subst mgs final. clear H.
    destruct (IH _ _ _ R) as [E1 [E2 E3]].
    split; [rewrite E1; simpl; rewrite app_assoc; reflexivity|].
    split; [simpl; rewrite E2; reflexivity|].
    assert (Lf : len (verts ++ vertices g) <= len final').
    { rewrite E1, !len_app.
      pose proof (len_nonneg (flat_map vertices gs)). lia. }
    constructor.
    + cbn [base_index mesh_active_faces mesh_inactive_faces grp].
      rewrite !remap_faces_filter. simpl.
      split; [lia|]. split; [|split].
      * apply Forall_app. split; apply Forall_forall; intros t Ht;
          apply filter_In in Ht; destruct Ht as [_ Ht];
          apply (all_in_range_mono _ _ _ Lf Ht).
      * intros t Ht. apply filter_In in Ht. tauto.
      * intros t Ht. apply filter_In in Ht. tauto.
    + eapply Forall_impl; [|exact E3]. cbv beta.
      intros mg [B1 Rest]. split; [|exact Rest].
      rewrite len_app in B1. pose proof (len_nonneg (vertices g)). lia.
Qed.

Lemma all_in_range_within (n : Z) (t : triangle) :
  all_in_range n t = true -> within 0 n t.
Proof.
  destruct t as [[a b] c]. unfold all_in_range, within.
  rewrite !andb_true_iff, !Z.leb_le, !Z.ltb_lt. lia.
Qed.

(** Whatever the groups are, well formed or not, the remapper never produces
    an index outside the global vertex array: a face whose translated
    indices do not all lie in it is dropped.  The global array is the
    concatenation of the groups' vertices, the groups keep their order, and
    each global triangle is the translation of a face of its own group:
    every index of a global triangle is at least 0 and less than the length
    of the global array, and the triangle is
    [(a - 1 + base, b - 1 + base, c - 1 + base)] for a face [(a, b, c)] of
    the group's list of the same kind, [base] being the group's base
    index. *)
Theorem remap_stays_in_range (gs : list group) :
  let mgs := fst (remap_groups gs []) in
  let final := snd (remap_groups gs []) in
  final = flat_map vertices gs /\
  map grp mgs = gs /\
  Forall (fun mg =>
            Forall (fun t => all_in_range (len final) t = true)
                   (mesh_active_faces mg ++ mesh_inactive_faces mg) /\
            incl (mesh_active_faces mg)
                 (map (adjusted_indices (base_index mg))
                      (active_faces (grp mg))) /\
            incl (mesh_inactive_faces mg)
                 (map (adjusted_indices (base_index mg))
                      (inactive_faces (grp mg))) /\
            Forall (within 0 (len final))
                   (mesh_active_faces mg ++ mesh_inactive_faces mg) /\
            (forall t, In t (mesh_active_faces mg) ->
               exists f, In f (active_faces (grp mg)) /\
                         translates (base_index mg) f t) /\
            (forall t, In t (mesh_inactive_faces mg) ->
               exists f, In f (inactive_faces (grp mg)) /\
                         translates (base_index mg) f t))
         mgs.
Proof.
  cbv zeta. destruct (remap_groups gs []) as [mgs final] eqn:R.
  destruct (remap_groups_any gs [] mgs final R) as [E1 [E2 E3]].
  cbn [fst snd]. split; [exact E1|]. split; [exact E2|].
  eapply Forall_impl; [|exact E3]. cbv beta. intros mg [_ [Rg [Ia Ii]]].
  split; [exact Rg|]. split; [exact Ia|]. split; [exact Ii|].
  split; [|split].
  - eapply Forall_impl; [|exact Rg]. intros t. apply all_in_range_within.
  - intros t Ht. apply Ia, in_map_iff in Ht. destruct Ht as [f [<- Hf]].
    exists f. split; [exact Hf | translation_formula].
  - intros t Ht. apply Ii, in_map_iff in Ht. destruct Ht as [f [<- Hf]].
    exists f. split; [exact Hf | translation_formula].
Qed.

(** ** Counts in a parsed model *)

Lemma group_ok_face_count (d : bytes) (g : group) :
  group_ok d g ->
  len (active_faces g) + len (inactive_faces g) = Z.max 0 (XX g - 2).
Proof.
  intros G. rewrite (ok_active d g G), (ok_inactive d g G).
  unfold len. rewrite <- Nat2Z.inj_add, filter_split_length.
  rewrite length_map, length_seq. lia.
Qed.

Lemma remapped_counts (d : bytes) (mgs : list mesh_group) :
  forall base, 0 <= base ->
    remapped base mgs ->
    Forall (fun mg => group_ok d (grp mg)) mgs ->
    len (flat_map (fun mg => vertices (grp mg)) mgs)
    = fold_right Z.add 0 (map (fun mg => XX (grp mg)) mgs) /\
    Forall (fun mg =>
              base <= base_index mg /\
              base_index mg + XX (grp mg)
              <= base + len (flat_map (fun mg => vertices (grp mg)) mgs) /\
              len (mesh_active_faces mg) = len (active_faces (grp mg)) /\
              len (mesh_inactive_faces mg) = len (inactive_faces (grp mg)) /\
              len (mesh_active_faces mg) + len (mesh_inactive_faces mg)
              = Z.max 0 (XX (grp mg) - 2))
           mgs.
Proof.
  induction mgs as [|mg mgs IH]; intros base B R G.
  - simpl. split; [reflexivity | constructor].
  - simpl in R. destruct R as [R1 [R2 [R3 [_ R5]]]].
    apply Forall_cons_iff in G. destruct G as [G1 G2].
    pose proof (ok_vertices d _ G1) as V. pose proof (ok_XX d _ G1) as X.
    assert (B' : 0 <= base + len (vertices (grp mg))) by lia.
    destruct (IH (base + len (vertices (grp mg))) B' R5 G2) as [S F].
    cbn [flat_map map fold_right]. rewrite len_app, S, V.
    split; [reflexivity|].
    pose proof (len_nonneg (flat_map (fun mg => vertices (grp mg)) mgs)) as L.
    rewrite S in L.
    constructor.
    + pose proof (group_ok_face_count d _ G1) as FC.
      assert (LA : len (mesh_active_faces mg) = len (active_faces (grp mg)))
        by (rewrite R2; unfold len; rewrite length_map; reflexivity).
      assert (LI : len (mesh_inactive_faces mg) = len (inactive_faces (grp mg)))
        by (rewrite R3; unfold len; rewrite length_map; reflexivity).
      rewrite R1. repeat split; try assumption; lia.
    + eapply Forall_impl; [|exact F]. cbv beta.
      intros m [H1 [H2 H3]]. rewrite S, V in *.
      split; [lia|]. split; [lia|]. exact H3.
Qed.

(** In a parsed model the number of global vertices is the sum of the
    groups' count bytes; each group's vertices occupy the indices from its
    base on, inside the global array; and each group has as many active and
    as many inactive global triangles as it has active and inactive faces,
    [max 0 (XX - 2)] together. *)
Theorem parsed_model_counts (d : bytes) (self : PCKParser) (model : MeshModel) :
  parse (inr d) = Returned true (self, Some model) ->
  len (model_vertices model) = fold_right Z.add 0 (map XX (vertex_groups self))
  /\
  Forall (fun mg =>
            0 <= base_index mg /\
            base_index mg + XX (grp mg) <= len (model_vertices model) /\
            len (mesh_active_faces mg) = len (active_faces (grp mg)) /\
            len (mesh_inactive_faces mg) = len (inactive_faces (grp mg)) /\
            len (mesh_active_faces mg) + len (mesh_inactive_faces mg)
            = Z.max 0 (XX (grp mg) - 2))
         (model_groups model).
Proof.
  intros H. unfold parse, read_pck_file in H.
  destruct (find_vertex_patterns (loaded d)) as [[|] self'| |] eqn:Hrun;
    try discriminate.
  destruct (remap_groups (vertex_groups self') []) as [mgs verts] eqn:RG.
  inversion H. subst self' model. clear H.
  cbn [model_vertices model_groups].
  destruct (returned_groups_state d true self Hrun) as [m [i St]].
  scan_invariant St. pose proof (inv_groups _ _ _ _ Inv) as G.
  assert (L : Forall faces_local (vertex_groups self)).
  { eapply Forall_impl; [|exact G]. intros g. apply group_ok_faces_local. }
  destruct (remap_groups_spec _ L [] mgs verts RG) as [E1 [E2 E3]].
  simpl in E1. change (len []) with 0 in E3.
  assert (G' : Forall (fun mg => group_ok d (grp mg)) mgs).
  { rewrite <- E2 in G. rewrite Forall_map in G. exact G. }
  destruct (remapped_counts d mgs 0 (Z.le_refl 0) E3 G') as [S F].
  assert (EV : len verts = len (flat_map (fun mg => vertices (grp mg)) mgs)).
  { rewrite E1, <- E2, flat_map_grp. reflexivity. }
  split.
  - rewrite EV, S, <- E2, map_map. reflexivity.
  - rewrite EV. eapply Forall_impl; [|exact F]. cbv beta. intros mg H. lia.
Qed.

Lemma parsed_model_counts_witness :
  let model := {| model_vertices := vertices uv_group;
                  model_groups :=
                    [{| grp := uv_group; base_index := 0;
                        mesh_active_faces := [(1, 2, 3)];
                        mesh_inactive_faces := [(0, 1, 2)] |}] |} in
  len (model_vertices model)
  = fold_right Z.add 0 (map XX (vertex_groups (scanned uv_buffer [uv_group])))
  /\
  Forall (fun mg =>
            0 <= base_index mg /\
            base_index mg + XX (grp mg) <= len (model_vertices model) /\
            len (mesh_active_faces mg) = len (active_faces (grp mg)) /\
            len (mesh_inactive_faces mg) = len (inactive_faces (grp mg)) /\
            len (mesh_active_faces mg) + len (mesh_inactive_faces mg)
            = Z.max 0 (XX (grp mg) - 2))
         (model_groups model).
Proof.
  apply (parsed_model_counts uv_buffer (scanned uv_buffer [uv_group])).
  vm_compute. reflexivity.
Defined.

(** ** The exported text *)

Section ExportLayout.

Variable str_float32 : bool -> Z -> string.

Lemma line_kinds_f (scale : bool) (v : vertex) (p : uv) (t : triangle) :
  is_f_line (v_line str_float32 scale v) = false /\
  is_f_line (vt_line p) = false /\
  is_f_line (f_line t) = true.
Proof.
  destruct v as [[x y] z], p as [u w], t as [[a b] c].
  unfold is_f_line, v_line, vt_line, f_line.
  repeat split; cbn; try reflexivity. apply prefix_empty.
Qed.

Lemma flat_map_f_lines (groups : list mesh_group) :
  flat_map (fun g => map f_line (mesh_active_faces g)) groups
  = map f_line (flat_map mesh_active_faces groups).
Proof.
  induction groups as [|g gs IH]; simpl; [reflexivity|].
  rewrite map_app, IH. reflexivity.
Qed.

(** The exported lines are the vertex lines, then the texture lines, then
    the face lines, in that order and nothing else: one [v] and one [vt] line
    per vertex, and one [f] line per active global triangle, in group order.
    The inactive triangles are not read by the exporter. *)
Theorem obj_lines_layout (verts : list vertex) (groups : list mesh_group)
  (scale : bool) :
  let lines := obj_lines str_float32 verts groups scale in
  filter is_f_line lines
  = map f_line (flat_map mesh_active_faces groups)
  /\ List.length lines
     = (2 * List.length verts
        + List.length (flat_map mesh_active_faces groups))%nat
  /\ exists vs vts fs,
       lines = (vs ++ vts ++ fs)%list /\
       Forall (fun s => is_v_line s = true) vs /\
       Forall (fun s => is_vt_line s = true) vts /\
       Forall (fun s => is_f_line s = true) fs /\
       List.length vs = List.length verts /\
       List.length vts = List.length verts.
Proof.
  cbv zeta. unfold obj_lines. rewrite flat_map_f_lines.
  destruct (fit_uvs_closed (gather_uvs groups []) (List.length verts))
    as [_ FL].
  split; [|split].
  - rewrite !filter_app.
    rewrite (filter_map_none is_f_line)
      by (intros v; apply (line_kinds_f scale v (0, 0) (0, 0, 0))).
    rewrite (filter_map_none is_f_line)
      by (intros q; apply (line_kinds_f scale (0, 0, 0) q (0, 0, 0))).
    rewrite (filter_map_all is_f_line)
      by (intros t; apply (line_kinds_f scale (0, 0, 0) (0, 0) t)).
    reflexivity.
  - rewrite !length_app, !length_map, FL. lia.
  - eexists _, _, _. split; [reflexivity|].
    repeat split.
    + apply Forall_forall. intros s Hs. apply in_map_iff in Hs.
      destruct Hs as [v [<- _]]. apply v_line_kind.
    + apply Forall_forall. intros s Hs. apply in_map_iff in Hs.
      destruct Hs as [q [<- _]]. apply vt_line_kind.
    + apply Forall_forall. intros s Hs. apply in_map_iff in Hs.
      destruct Hs as [t [<- _]].
      apply (line_kinds_f scale (0, 0, 0) (0, 0) t).
    + apply length_map.
    + rewrite length_map. exact FL.
Qed.

(** For a parsed model the zero filling and the cut of lines 592-595 never
    act: the UVs gathered from the groups are already one per global vertex,
    so the texture lines are exactly the groups' contributions, and every
    face line refers, by its 1-based indices, to an existing vertex line and
    to an existing texture line. *)
Theorem parsed_model_export (d : bytes) (self : PCKParser) (model : MeshModel)
  (scale : bool) :
  parse (inr d) = Returned true (self, Some model) ->
  let verts := model_vertices model in
  let groups := model_groups model in
  let lines := obj_lines str_float32 verts groups scale in
  let global_uvs := flat_map (fun g => group_uvs (grp g)) groups in
  List.length global_uvs = List.length verts /\
  filter is_vt_line lines = map vt_line global_uvs /\
  Forall (fun t =>
            let '(a, b, c) := t in
            let nv := Z.of_nat (List.length (filter is_v_line lines)) in
            let nt := Z.of_nat (List.length (filter is_vt_line lines)) in
            (1 <= a + 1 <= nv /\ 1 <= b + 1 <= nv /\ 1 <= c + 1 <= nv) /\
            (1 <= a + 1 <= nt /\ 1 <= b + 1 <= nt /\ 1 <= c + 1 <= nt))
         (flat_map mesh_active_faces groups).
Proof.
  intros H. cbv zeta. unfold parse, read_pck_file in H.
  destruct (find_vertex_patterns (loaded d)) as [[|] self'| |] eqn:Hrun;
    try discriminate.
  destruct (remap_groups (vertex_groups self') []) as [mgs verts] eqn:RG.
  inversion H. subst self' model. clear H.
  cbn [model_vertices model_groups].
  destruct (remap_groups_any _ [] mgs verts RG) as [E1 [E2 E3]].
  simpl in E1.
  assert (LU : List.length (flat_map (fun g => group_uvs (grp g)) mgs)
               = List.length verts).
  { rewrite E1, <- E2, flat_map_grp. clear.
    induction mgs as [|mg mgs IH]; simpl; [reflexivity|].
    rewrite !length_app, IH.
    rewrite (proj1 (group_uvs_per_vertex (grp mg))). reflexivity. }
  assert (VT : filter is_vt_line (obj_lines str_float32 verts mgs scale)
               = map vt_line (flat_map (fun g => group_uvs (grp g)) mgs)).
  { rewrite obj_lines_vt. f_equal.
    rewrite (proj1 (fit_uvs_closed _ _)), LU, Nat.sub_diag. simpl.
    rewrite app_nil_r, <- LU. apply firstn_all. }
  split; [exact LU|]. split; [exact VT|].
  rewrite VT, obj_lines_v, !length_map, LU.
  apply Forall_forall. intros [[a b] c] Ht.
  apply in_flat_map in Ht. destruct Ht as [mg [Hmg Ht]].
  rewrite Forall_forall in E3. destruct (E3 mg Hmg) as [_ [R _]].
  rewrite Forall_forall in R.
  specialize (R (a, b, c) (in_or_app _ _ _ (or_introl Ht))).
  unfold all_in_range, len in R.
  rewrite !andb_true_iff, !Z.leb_le, !Z.ltb_lt in R. lia.
Qed.

End ExportLayout.

Lemma parsed_model_export_witness :
  let model := {| model_vertices := vertices uv_group;
                  model_groups :=
                    [{| grp := uv_group; base_index := 0;
                        mesh_active_faces := [(1, 2, 3)];
                        mesh_inactive_faces := [(0, 1, 2)] |}] |} in
  let str_float32 := fun (_ : bool) (n : Z) => str_int n in
  let verts := model_vertices model in
  let groups := model_groups model in
  let lines := obj_lines str_float32 verts groups false in
  let global_uvs := flat_map (fun g => group_uvs (grp g)) groups in
  List.length global_uvs = List.length verts /\
  filter is_vt_line lines = map vt_line global_uvs /\
  Forall (fun t =>
            let '(a, b, c) := t in
            let nv := Z.of_nat (List.length (filter is_v_line lines)) in
            let nt := Z.of_nat (List.length (filter is_vt_line lines)) in
            (1 <= a + 1 <= nv /\ 1 <= b + 1 <= nv /\ 1 <= c + 1 <= nv) /\
            (1 <= a + 1 <= nt /\ 1 <= b + 1 <= nt /\ 1 <= c + 1 <= nt))
         (flat_map mesh_active_faces groups).
Proof.
  apply (parsed_model_export (fun (_ : bool) (n : Z) => str_int n)
           uv_buffer (scanned uv_buffer [uv_group])).
  vm_compute. reflexivity.
Defined.

(** ** Global indices and the vertices they name *)

Lemma remap_groups_bases (gs : list group) :
  forall verts mgs final,
    remap_groups gs verts = (mgs, final) ->
    forall pre mg post,
      mgs = pre ++ mg :: post ->
      base_index mg = len (verts ++ flat_map (fun m => vertices (grp m)) pre) /\
      final = (verts ++ flat_map (fun m => vertices (grp m)) pre)
              ++ vertices (grp mg)
              ++ flat_map (fun m => vertices (grp m)) post.
Proof.
  induction gs as [|g gs IH]; intros verts mgs final H pre mg post E;
    simpl in H.
  - inversion H. subst. destruct pre; discriminate.
  - destruct (remap_groups gs (verts ++ vertices g)) as [mgs' final'] eqn:R.
    injection H as H1 H2. rewrite <- H1 in E. rewrite <- H2. clear H1 H2.
    destruct pre as [|m0 pre].
    + simpl in E. injection E as E0 E'. rewrite <- E0.
      cbn [base_index grp flat_map].
      rewrite app_nil_r. split; [reflexivity|].
      destruct (remap_groups_any gs _ _ _ R) as [E1 [E2 _]].
      rewrite E1, <- E2, flat_map_grp, E', app_assoc. reflexivity.
    + simpl in E. injection E as E0 E'.
      destruct (IH _ _ _ R pre mg post E') as [B F].
      rewrite <- E0. cbn [flat_map grp]. rewrite app_assoc.
      split; [exact B | exact F].
Qed.

(** Remapping keeps the geometry: in the global vertex array, the entry at
    a group's base index plus [k] is the group's own vertex of rank [k], and
    the base index is the number of vertices of the groups before.  So the
    global index [local - 1 + base] names the vertex that the 1-based local
    index names in the group. *)
Theorem remap_keeps_vertices (gs : list group)
  (pre : list mesh_group) (mg : mesh_group) (post : list mesh_group)
  (k : nat) :
  fst (remap_groups gs []) = pre ++ mg :: post ->
  (k < List.length (vertices (grp mg)))%nat ->
  base_index mg = len (flat_map (fun m => vertices (grp m)) pre) /\
  nth_error (snd (remap_groups gs [])) (Z.to_nat (base_index mg) + k)
  = nth_error (vertices (grp mg)) k.
Proof.
  intros E Hk. destruct (remap_groups gs []) as [mgs final] eqn:R.
  cbn [fst snd] in *.
  destruct (remap_groups_bases gs [] mgs final R pre mg post E) as [B F].
  simpl in B, F. split; [exact B|].
  rewrite F, B. unfold len. rewrite Nat2Z.id.
  rewrite nth_error_app2 by lia.
  replace (List.length (flat_map (fun m => vertices (grp m)) pre) + k
           - List.length (flat_map (fun m => vertices (grp m)) pre))%nat
    with k by lia.
  apply nth_error_app1. exact Hk.
Qed.

(** The second group of [two_group_buffer]: base index 3, and the global
    vertex 3 + 1 is its vertex 1. *)
Lemma remap_keeps_vertices_witness :
  let mg1 := {| grp := scenario_group; base_index := 0;
                mesh_active_faces := [(0, 1, 2)];
                mesh_inactive_faces := [] |} in
  let mg2 := {| grp := second_group; base_index := 3;
                mesh_active_faces := [(3, 4, 5)];
                mesh_inactive_faces := [] |} in
  base_index mg2 = len (flat_map (fun m => vertices (grp m)) [mg1]) /\
  nth_error (snd (remap_groups [scenario_group; second_group] []))
            (Z.to_nat (base_index mg2) + 1)
  = nth_error (vertices (grp mg2)) 1.
Proof.
  apply (remap_keeps_vertices [scenario_group; second_group]
           [{| grp := scenario_group; base_index := 0;
               mesh_active_faces := [(0, 1, 2)];
               mesh_inactive_faces := [] |}]
           {| grp := second_group; base_index := 3;
              mesh_active_faces := [(3, 4, 5)];
              mesh_inactive_faces := [] |}
           [] 1).
  - reflexivity.
  - simpl. lia.
Defined.

(** ** One pattern at a position *)

(** A pattern whose prefix is not at the position is passed over. *)
Lemma try_pattern_other_prefix (d : bytes) (i : Z) (p : pattern_info) :
  slice d i (i + 2) <> prefix p -> try_pattern d i p = Continue.
Proof.
  intros N. unfold try_pattern, vertex_header.
  destruct (bytes_eqb (slice d i (i + 2)) (prefix p)) eqn:E; [|reflexivity].
  apply bytes_eqb_eq in E. contradiction.
Qed.

(** The pattern table tried in the other order gives the same pass. *)
Lemma for_patterns_order (d : bytes) (i : Z) :
  for_patterns d i [pattern2; pattern1] = for_patterns d i [pattern1; pattern2].
Proof.
  cbn [for_patterns].
  destruct (bytes_eqb (slice d i (i + 2)) (prefix pattern1)) eqn:E.
  - apply bytes_eqb_eq in E.
    rewrite (try_pattern_other_prefix d i pattern2)
      by (rewrite E; discriminate).
    destruct (try_pattern d i pattern1); reflexivity.
  - rewrite (try_pattern_other_prefix d i pattern1).
    + destruct (try_pattern d i pattern2); reflexivity.
    + intros H. apply bytes_eqb_eq in H. congruence.
Qed.

(** The two vertex prefixes differ, so at most one pattern's header is a
    candidate at a position, with one count byte: the order in which the
    pattern table is tried does not matter, the table tried in the other
    order gives the same pass of the loop body. *)
Theorem patterns_exclusive (d : bytes) (i : Z) (p q : pattern_info)
  (xxb yyb : byte) :
  In p patterns -> In q patterns ->
  vertex_header d i p = Some (Some xxb) ->
  vertex_header d i q = Some (Some yyb) ->
  p = q /\ xxb = yyb /\
  for_patterns d i [pattern2; pattern1] = loop_body d i.
Proof.
  intros Hp Hq VP VQ.
  apply vertex_header_some in VP. destruct VP as [SP [GP _]].
  apply vertex_header_some in VQ. destruct VQ as [SQ [GQ _]].
  assert (p = q).
  { rewrite SP in SQ.
    destruct Hp as [<-|[<-|[]]]; destruct Hq as [<-|[<-|[]]];
      try reflexivity; discriminate. }
  subst q. split; [reflexivity|]. split; [congruence|].
  apply for_patterns_order.
Qed.

Lemma patterns_exclusive_witness :
  pattern2 = pattern2 /\ x04 = x04 /\
  for_patterns uv_buffer 0 [pattern2; pattern1] = loop_body uv_buffer 0.
Proof.
  apply (patterns_exclusive uv_buffer 0 pattern2 pattern2 x04 x04).
  - simpl. right. left. reflexivity.
  - simpl. right. left. reflexivity.
  - reflexivity.
  - reflexivity.
Defined.

(** ** The UVs a scanned group exports *)

(** A group that was read with a UV block exports its own UVs, one per
    vertex; a group without one exports [(0, 0)] for each of its [XX]
    vertices. *)
Theorem scanned_group_uvs (d : bytes) (b : bool) (self : PCKParser)
  (g : group) :
  find_vertex_patterns (loaded d) = Returned b self ->
  In g (vertex_groups self) ->
  List.length (group_uvs g) = Z.to_nat (XX g) /\
  match uvs_span g with
  | Some _ => group_uvs g = uvs g
  | None => group_uvs g = repeat (0, 0) (Z.to_nat (XX g))
  end.
Proof.
  intros Hrun Hin.
  destruct (returned_group_anatomy d b self g Hrun Hin)
    as [Hs [p [xxb [[Hp [_ [HX _]]] [_ [A1 [A2 [A3 [A4 [A5 _]]]]]]]]]].
  pose proof (int_of_byte_range xxb) as R.
  apply read_uv_block_anatomy in A5; [|exact Hp|lia].
  assert (LV : List.length (vertices g) = Z.to_nat (XX g))
    by (rewrite A4, length_map, length_seq; reflexivity).
  split.
  - rewrite (proj1 (group_uvs_per_vertex g)). exact LV.
  - unfold group_uvs. rewrite LV.
    destruct A5 as [[S1 [S2 _]]|[S1 [_ [_ [_ S5]]]]]; rewrite S1.
    + rewrite S2. simpl.
      destruct (Z.to_nat (XX g)); reflexivity.
    + assert (LU : List.length (uvs g) = Z.to_nat (XX g)).
      { rewrite S5, length_map, length_seq. rewrite HX. reflexivity. }
      rewrite LU, Nat.eqb_refl. reflexivity.
Qed.

Lemma scanned_group_uvs_witness :
  List.length (group_uvs uv_group) = Z.to_nat (XX uv_group) /\
  match uvs_span uv_group with
  | Some _ => group_uvs uv_group = uvs uv_group
  | None => group_uvs uv_group = repeat (0, 0) (Z.to_nat (XX uv_group))
  end.
Proof.
  apply (scanned_group_uvs uv_buffer true (scanned uv_buffer [uv_group])).
  - exact uv_buffer_scan.
  - simpl. left. reflexivity.
Defined.

(** ** The scan always returns *)

(** On every buffer the scan returns [True] or [False]: the indexing of
    lines 76 and 80 never raises [IndexError], no [struct.error] is met, and
    the loop ends within the iterations that the length of the buffer
    allows; so does [parse], on a file that could be read or not. *)
Theorem parse_always_returns (file : string + bytes) (d : bytes) :
  (exists b self, find_vertex_patterns (loaded d) = Returned b self) /\
  (exists b r, parse file = Returned b r).
Proof.
  split.
  - destruct (find_vertex_patterns_run d)
      as [m [i [gs [_ [[_ ->]|[_ [msg [_ ->]]]]]]]]; eauto.
  - unfold parse, read_pck_file. destruct file as [e|d']; [eauto|].
    destruct (find_vertex_patterns_run d')
      as [m [i [gs [_ [[_ E]|[_ [msg [_ E]]]]]]]]; rewrite E; [|eauto].
    cbn [vertex_groups scanned].
    destruct (remap_groups gs []) as [mgs verts]. eauto.
Qed.
